(** * ABC samplers of [snl/inference/abc.py]: rejection, MCMC and SMC

    A shallow embedding of [calc_dist], [Rejection.run], [MCMC.run] and
    [SMC.run] with its helpers, followed by the properties proved about them.

    Numbers.  A Python/numpy float is an [xfloat]: a real number or one of the
    three IEEE special values.  Finite arithmetic is exact (rounding is not
    modelled, there is no signed zero); the special values follow IEEE 754.
    The theorems on the samplers are those that do not depend on how a finite
    result is rounded: what [SMC.run] records for the tolerance, the
    log-weights and the effective sample size is the binary64 rounding of
    what [xmul], [normalize] and [log_ess_of] give here.  The lemmas on
    [logsumexp] in exact arithmetic serve to evaluate the tests of concrete
    runs.
    The one place where rounding decides an integer, the truncation
    [int(quantile * n_initial_round)], is computed with binary64 floats.
    Counts ([n_samples], [n_particles], [n_initial_round], [n_sims_budget])
    are natural numbers; parameter vectors and datasets are one-dimensional.

    Effects.  The prior, the simulator and the random generator are a [World]
    of state-passing functions over an abstract generator state.  Exceptions
    and loops without a bound are results of type [res].  The logger is an
    object with an [info] method, as the samplers call it.  Its calls are a
    side channel that the specification keeps out of the samplers' contract:
    what they write is left out, but not what the formatting of their
    arguments raises.  The one format that can raise is the one of
    [cur_dist] in [MCMC.run], a TypeError while [cur_dist] is None. *)

From Stdlib Require Import Reals Lra Lia List Bool Arith ZArith.
From Stdlib Require Import Sorted Permutation.
From Stdlib Require PrimFloat SpecFloat FloatOps Uint63.
Import ListNotations.

(** ** Extended floats *)

Inductive xfloat : Type :=
| Fin (r : R)
| PInf
| NInf
| NaN.

Definition Rltb (a b : R) : bool := if Rlt_dec a b then true else false.
Definition Reqb (a b : R) : bool := if Req_dec_T a b then true else false.

Definition xopp (x : xfloat) : xfloat :=
  match x with
  | Fin r => Fin (- r)
  | PInf => NInf
  | NInf => PInf
  | NaN => NaN
  end.

Definition xadd (x y : xfloat) : xfloat :=
  match x, y with
  | NaN, _ | _, NaN => NaN
  | Fin a, Fin b => Fin (a + b)
  | PInf, NInf | NInf, PInf => NaN
  | PInf, _ | _, PInf => PInf
  | NInf, _ | _, NInf => NInf
  end.

Definition xsub (x y : xfloat) : xfloat := xadd x (xopp y).

(** [inf * a] for a finite [a]: the sign of [a] decides, [inf * 0] is NaN. *)
Definition inf_times (positive : bool) (a : R) : xfloat :=
  if Reqb a 0 then NaN
  else if Bool.eqb positive (Rltb 0 a) then PInf else NInf.

(** The product; of two finite values, the exact one. *)
Definition xmul (x y : xfloat) : xfloat :=
  match x, y with
  | NaN, _ | _, NaN => NaN
  | Fin a, Fin b => Fin (a * b)
  | Fin a, PInf | PInf, Fin a => inf_times true a
  | Fin a, NInf | NInf, Fin a => inf_times false a
  | PInf, PInf | NInf, NInf => PInf
  | PInf, NInf | NInf, PInf => NInf
  end.

(** numpy's true division: a division by zero gives an infinity or NaN. *)
Definition xdiv (x y : xfloat) : xfloat :=
  match x, y with
  | NaN, _ | _, NaN => NaN
  | Fin a, Fin b =>
      if Reqb b 0 then
        (if Reqb a 0 then NaN else if Rltb 0 a then PInf else NInf)
      else Fin (a / b)
  | Fin _, _ => Fin 0
  | PInf, Fin b => if Rltb b 0 then NInf else PInf
  | NInf, Fin b => if Rltb b 0 then PInf else NInf
  | _, _ => NaN
  end.

Definition xsqrt (x : xfloat) : xfloat :=
  match x with
  | Fin r => if Rltb r 0 then NaN else Fin (sqrt r)
  | PInf => PInf
  | NInf | NaN => NaN
  end.

Definition xexp (x : xfloat) : xfloat :=
  match x with
  | Fin r => Fin (exp r)
  | PInf => PInf
  | NInf => Fin 0
  | NaN => NaN
  end.

Definition xlog (x : xfloat) : xfloat :=
  match x with
  | Fin r => if Rltb 0 r then Fin (ln r) else if Reqb r 0 then NInf else NaN
  | PInf => PInf
  | NInf | NaN => NaN
  end.

(** [x < y]; every comparison with NaN is false. *)
Definition xltb (x y : xfloat) : bool :=
  match x, y with
  | NaN, _ | _, NaN => false
  | Fin a, Fin b => Rltb a b
  | NInf, NInf | PInf, _ | _, NInf => false
  | NInf, _ | _, PInf => true
  end.

(** [x > y] *)
Definition xgtb (x y : xfloat) : bool := xltb y x.

(** [x <= y] *)
Definition xleb (x y : xfloat) : bool :=
  match x, y with
  | NaN, _ | _, NaN => false
  | Fin a, Fin b => negb (Rltb b a)
  | NInf, _ | _, PInf => true
  | PInf, _ | _, NInf => false
  end.

Definition isnan (x : xfloat) : bool :=
  match x with NaN => true | _ => false end.

(** ** Results: a value, a raised exception, or a loop that did not finish *)

Inductive exn : Type :=
| ValueError
| IndexError
| LinAlgError
| ZeroDivisionError
| NameError
| TypeError.

Inductive res (A : Type) : Type :=
| Ok (a : A)
| Raise (e : exn)
| OutOfFuel.

Arguments Ok {A} a.
Arguments Raise {A} e.
Arguments OutOfFuel {A}.

Definition bind {A B : Type} (m : res A) (k : A -> res B) : res B :=
  match m with
  | Ok a => k a
  | Raise e => Raise e
  | OutOfFuel => OutOfFuel
  end.

Notation "'do' x <- m ; k" := (bind m (fun x => k))
  (at level 10, x pattern, m at level 100, k at level 200).

(** ** numpy vectors and arrays *)

Definition vec : Type := list xfloat.

(** A two-dimensional array: its rows and the length of a row, which the
    array keeps when it has no row. *)
Record array2 : Type := mkArray2 { shape1 : nat; rows : list vec }.

Definition shape0 (a : array2) : nat := length (rows a).

Fixpoint zip_with {A B C : Type} (f : A -> B -> C) (a : list A) (b : list B)
  : list C :=
  match a, b with
  | x :: a', y :: b' => f x y :: zip_with f a' b'
  | _, _ => []
  end.

(** Element-wise operation on two vectors with numpy's broadcasting: equal
    lengths, or one operand of length one; a ValueError otherwise. *)
Definition broadcast2 (f : xfloat -> xfloat -> xfloat) (a b : vec) : res vec :=
  if length a =? length b then Ok (zip_with f a b)
  else match a, b with
       | [x], _ => Ok (map (f x) b)
       | _, [y] => Ok (map (fun x => f x y) a)
       | _, _ => Raise ValueError
       end.

(** [np.sum] *)
Definition xsum (v : vec) : xfloat := fold_right xadd (Fin 0) v.

(** [np.dot] of two vectors of one length *)
Definition np_dot (a b : vec) : res xfloat :=
  if length a =? length b then Ok (xsum (zip_with xmul a b))
  else Raise ValueError.

(** [np.dot(m, v)] of a matrix and a vector *)
Fixpoint np_dot_mv (m : list vec) (v : vec) : res vec :=
  match m with
  | [] => Ok []
  | row :: m' =>
      do x <- np_dot row v;
      do xs <- np_dot_mv m' v;
      Ok (x :: xs)
  end.

(** [np.max]: NaN propagates; an empty array has no maximum. *)
Definition xmax (a b : xfloat) : xfloat :=
  if isnan a || isnan b then NaN else if xltb a b then b else a.

Definition np_max (v : vec) : res xfloat :=
  match v with
  | [] => Raise ValueError
  | x :: v' => Ok (fold_left xmax v' x)
  end.

(** [np.full(n, x)] *)
Definition np_full (n : nat) (x : xfloat) : vec := repeat x n.

(** [scipy.special.logsumexp]: the log of the sum of the exponentials. *)
Definition logsumexp (v : vec) : xfloat := xlog (xsum (map xexp v)).

(** [a[i]] *)
Definition get {A : Type} (l : list A) (i : nat) : res A :=
  match nth_error l i with
  | Some x => Ok x
  | None => Raise IndexError
  end.

(** [a[i] = x] *)
Fixpoint set {A : Type} (l : list A) (i : nat) (x : A) : res (list A) :=
  match l, i with
  | [], _ => Raise IndexError
  | _ :: l', O => Ok (x :: l')
  | y :: l', S i' => do l'' <- set l' i' x; Ok (y :: l'')
  end.

(** [a[idx]] for an array of indices *)
Fixpoint take {A : Type} (l : list A) (idx : list nat) : res (list A) :=
  match idx with
  | [] => Ok []
  | i :: idx' =>
      do x <- get l i;
      do xs <- take l idx';
      Ok (x :: xs)
  end.

(** [np.argsort]: the indices of [v] in ascending order of their values, NaN
    last.  The model keeps equal values in their order of appearance. *)
Definition np_lt (a b : xfloat) : bool :=
  match b with
  | NaN => negb (isnan a)
  | _ => xltb a b
  end.

(** [a] does not come after [b] in that order. *)
Definition np_le (a b : xfloat) : bool := negb (np_lt b a).

Fixpoint insert_idx (v : vec) (i : nat) (sorted : list nat) : list nat :=
  match sorted with
  | [] => [i]
  | j :: rest =>
      if np_lt (nth j v NaN) (nth i v NaN)
      then j :: insert_idx v i rest
      else i :: sorted
  end.

Definition np_argsort (v : vec) : list nat :=
  fold_right (insert_idx v) [] (seq 0 (length v)).

(** ** The truncation [int(quantile * n_initial_round)] in binary64 *)

Definition float_of_nat (n : nat) : PrimFloat.float :=
  PrimFloat.of_uint63 (Uint63.of_Z (Z.of_nat n)).

(** [int(f)]: truncation towards zero; infinities and NaN raise. *)
Definition int_of_float (f : PrimFloat.float) : res Z :=
  match FloatOps.Prim2SF f with
  | SpecFloat.S754_zero _ => Ok 0%Z
  | SpecFloat.S754_finite s m e =>
      let a := match e with
               | Z0 => Zpos m
               | Zpos _ => Z.shiftl (Zpos m) e
               | Zneg k => Z.shiftr (Zpos m) (Zpos k)
               end in
      Ok (if s then (- a)%Z else a)
  | _ => Raise ValueError
  end.

(** [quantile = n_particles / n_initial_round;
     n_quantile = int(quantile * n_initial_round)] *)
Definition n_quantile (n_particles n_initial_round : nat) : res nat :=
  if n_initial_round =? 0 then Raise ZeroDivisionError
  else
    let quantile :=
      PrimFloat.div (float_of_nat n_particles) (float_of_nat n_initial_round) in
    do z <- int_of_float (PrimFloat.mul quantile (float_of_nat n_initial_round));
    Ok (Z.to_nat z).

(** ** [calc_dist] *)

(** The Euclidean distance of two datasets of one shape; an absent dataset is
    infinitely far from everything. *)
Definition calc_dist (data_1 data_2 : option vec) : xfloat :=
  match data_1, data_2 with
  | Some d1, Some d2 =>
      let diff := zip_with xsub d1 d2 in
      xsqrt (xsum (zip_with xmul diff diff))
  | _, _ => PInf
  end.

(** ** The collaborators: prior, simulator, random generator, numerics *)

Record World : Type := mkWorld {
  (** the state of the injected random generator *)
  rng : Type;
  (** [prior.gen(rng=rng)] *)
  prior_gen : rng -> vec * rng;
  (** [prior.eval(ps, log=True)] *)
  prior_eval : vec -> xfloat;
  (** [sim_model(ps, rng=rng)]; [None] is a failed simulation *)
  sim_model : vec -> rng -> option vec * rng;
  (** one standard-normal draw *)
  rng_normal : rng -> R * rng;
  (** [rng.rand()] *)
  rng_rand : rng -> R * rng;
  (** Modelled from the spec: [snl.util.math.discrete_sample] is defined
      outside [abc.py]; with the default count it returns one index, drawn
      with probability proportional to the weights. *)
  discrete_sample : vec -> rng -> nat * rng;
  (** [np.linalg.cholesky]; raises LinAlgError on a matrix that is not
      positive definite *)
  cholesky : list vec -> res (list vec);
  (** [scipy.linalg.solve_triangular(std, b, lower=True)] for one column [b] *)
  solve_triangular : list vec -> vec -> vec;
  (** the content of freshly allocated memory ([np.empty_like]) *)
  uninit : nat -> xfloat
}.

Section Samplers.

Context (W : World).

(** [rng.randn(n)] *)
Fixpoint rng_randn (n : nat) (g : rng W) : vec * rng W :=
  match n with
  | O => ([], g)
  | S n' =>
      let (z, g1) := rng_normal W g in
      let (zs, g2) := rng_randn n' g1 in
      (Fin z :: zs, g2)
  end.

(** Modelled from the spec: [discrete_sample(p, n)] returns [n] indices drawn
    independently with replacement. *)
Fixpoint discrete_sample_n (p : vec) (n : nat) (g : rng W) : list nat * rng W :=
  match n with
  | O => ([], g)
  | S n' =>
      let (i, g1) := discrete_sample W p g in
      let (idx, g2) := discrete_sample_n p n' g1 in
      (i :: idx, g2)
  end.

(** [np.empty_like(v)] *)
Definition np_empty (n : nat) : vec := map (uninit W) (seq 0 n).

(** *** Rejection.run *)

Record rejection_state : Type := mkRejection {
  rj_ps : list vec;
  rj_dist : list xfloat;
  rj_n_sims : nat;
  rj_n_accepted : nat
}.

(** One draw of the prior with its simulated distance. *)
Definition draw (obs_data : option vec) (g : rng W) : vec * option vec * xfloat * rng W :=
  let (prop_ps, g1) := prior_gen W g in
  let (prop_data, g2) := sim_model W prop_ps g1 in
  (prop_ps, prop_data, calc_dist prop_data obs_data, g2).

(** The first [n] draws made from the generator state [g]. *)
Fixpoint draws (n : nat) (obs_data : option vec) (g : rng W)
  : list (vec * xfloat) :=
  match n with
  | O => []
  | S n' =>
      let '(prop_ps, _, prop_dist, g') := draw obs_data g in
      (prop_ps, prop_dist) :: draws n' obs_data g'
  end.

(** The acceptance test [prop_dist < eps] on a recorded draw. *)
Definition within (eps : xfloat) (d : vec * xfloat) : bool := xltb (snd d) eps.

(** The body of the [while] loop. *)
Definition rejection_step (obs_data : option vec) (eps : xfloat) (info : bool)
  (st : rejection_state) (g : rng W) : rejection_state * rng W :=
  let '(prop_ps, _, prop_dist, g') := draw obs_data g in
  let accepted := xltb prop_dist eps in
  (mkRejection
     (if accepted then rj_ps st ++ [prop_ps] else rj_ps st)
     (if info then rj_dist st ++ [prop_dist] else rj_dist st)
     (S (rj_n_sims st))
     (if accepted then S (rj_n_accepted st) else rj_n_accepted st),
   g').

(** [while n_accepted < n_samples: ...] *)
Fixpoint rejection_loop (fuel : nat) (obs_data : option vec) (eps : xfloat)
  (n_samples : nat) (info : bool) (st : rejection_state) (g : rng W)
  : res (rejection_state * rng W) :=
  if rj_n_accepted st <? n_samples then
    match fuel with
    | O => OutOfFuel
    | S fuel' =>
        let (st', g') := rejection_step obs_data eps info st g in
        rejection_loop fuel' obs_data eps n_samples info st' g'
    end
  else Ok (st, g).

Inductive rejection_result : Type :=
| RejectionInfo (ps : list vec) (dist : list xfloat) (n_sims : nat)
| RejectionPlain (ps : list vec).

Definition Rejection_run (fuel : nat) (obs_data : option vec) (eps : xfloat)
  (n_samples : nat) (info : bool) (g : rng W) : res (rejection_result * rng W) :=
  do (st, g') <- rejection_loop fuel obs_data eps n_samples info
                   (mkRejection [] [] 0 0) g;
  Ok (if info then RejectionInfo (rj_ps st) (rj_dist st) (rj_n_sims st)
      else RejectionPlain (rj_ps st),
      g').

(** *** MCMC *)

Record MCMC : Type := mkMCMC {
  cur_ps : vec;
  cur_log_prior : xfloat
}.

Definition MCMC_init (init_ps : vec) : MCMC :=
  mkMCMC init_ps (prior_eval W init_ps).

Record mcmc_state : Type := mkMcmcState {
  mc_self : MCMC;
  mc_ps : list vec;
  mc_n_accepted : nat;
  mc_cur_dist : option xfloat
}.

(** The proposal [cur_ps + step * rng.randn(n_dim)] with its simulated data
    and distance. *)
Definition mcmc_propose (obs_data : option vec) (step : xfloat) (n_dim : nat)
  (self : MCMC) (g : rng W) : vec * option vec * xfloat * rng W :=
  let (z, g1) := rng_randn n_dim g in
  let prop_ps := zip_with xadd (cur_ps self) (map (xmul step) z) in
  let (prop_data, g2) := sim_model W prop_ps g1 in
  (prop_ps, prop_data, calc_dist prop_data obs_data, g2).

(** The body of the [for] loop up to the log line: the proposal, the
    acceptance / rejection step and [ps.append(self.cur_ps.copy())]. *)
Definition mcmc_move (obs_data : option vec) (eps step : xfloat) (n_dim : nat)
  (st : mcmc_state) (g : rng W) : mcmc_state * rng W :=
  let self := mc_self st in
  let '(prop_ps, _, prop_dist, g2) := mcmc_propose obs_data step n_dim self g in
  let '(self', n_accepted', cur_dist', g') :=
    if xltb prop_dist eps then
      let prop_log_prior := prior_eval W prop_ps in
      let (u, g3) := rng_rand W g2 in
      if xltb (Fin u) (xexp (xsub prop_log_prior (cur_log_prior self))) then
        (mkMCMC prop_ps prop_log_prior, S (mc_n_accepted st), Some prop_dist, g3)
      else (self, mc_n_accepted st, mc_cur_dist st, g3)
    else (self, mc_n_accepted st, mc_cur_dist st, g2) in
  (mkMcmcState self' (mc_ps st ++ [cur_ps self']) n_accepted' cur_dist', g').

(** The body of the [for] loop.  Its log line formats [cur_dist] with
    ["dist = {1:.3}"]: while [cur_dist] is None, that is until a proposal has
    been accepted, the format raises a TypeError. *)
Definition mcmc_step (obs_data : option vec) (eps step : xfloat) (n_dim : nat)
  (st : mcmc_state) (g : rng W) : res (mcmc_state * rng W) :=
  let (st', g') := mcmc_move obs_data eps step n_dim st g in
  match mc_cur_dist st' with
  | None => Raise TypeError
  | Some _ => Ok (st', g')
  end.

(** [for i in range(n): ...] *)
Fixpoint mcmc_loop (n : nat) (obs_data : option vec) (eps step : xfloat)
  (n_dim : nat) (st : mcmc_state) (g : rng W) : res (mcmc_state * rng W) :=
  match n with
  | O => Ok (st, g)
  | S n' =>
      do (st', g') <- mcmc_step obs_data eps step n_dim st g;
      mcmc_loop n' obs_data eps step n_dim st' g'
  end.

Inductive mcmc_result : Type :=
| McmcInfo (ps : list vec) (acc_rate : xfloat)
| McmcPlain (ps : list vec).

Definition mcmc_chain (r : mcmc_result) : list vec :=
  match r with McmcInfo ps _ => ps | McmcPlain ps => ps end.

(** [MCMC.run]: the result, the sampler after the run, the generator. *)
Definition MCMC_run (self : MCMC) (obs_data : option vec) (eps step : xfloat)
  (n_samples : nat) (info : bool) (g : rng W)
  : res (mcmc_result * MCMC * rng W) :=
  let n_dim := length (cur_ps self) in
  do (st, g') <- mcmc_loop n_samples obs_data eps step n_dim
                   (mkMcmcState self [] 0 None) g;
  (* acc_rate = float(n_accepted) / n_samples *)
  if n_samples =? 0 then Raise ZeroDivisionError
  else
    let acc_rate := Fin (INR (mc_n_accepted st) / INR n_samples) in
    Ok (if info then McmcInfo (mc_ps st) acc_rate else McmcPlain (mc_ps st),
        mc_self st, g').

(** *** SMC *)

(** [np.array(ps)] of a list of parameter vectors *)
Definition np_array (ps : list vec) : array2 :=
  mkArray2 (length (hd [] ps)) ps.

(** The body of the [for] loop of [sample_initial_population]. *)
Fixpoint initial_round (n : nat) (obs_data : option vec) (g : rng W)
  : list vec * list xfloat * rng W :=
  match n with
  | O => ([], [], g)
  | S n' =>
      let '(prop_ps, _, dist, g1) := draw obs_data g in
      let '(ps, ds, g2) := initial_round n' obs_data g1 in
      (prop_ps :: ps, dist :: ds, g2)
  end.

(** [sample_initial_population]: the population, the number of simulations,
    the initial tolerance. *)
Definition sample_initial_population (obs_data : option vec)
  (n_particles n_initial_round : nat) (g : rng W)
  : res (array2 * nat * xfloat * rng W) :=
  let '(ps, ds, g') := initial_round n_initial_round obs_data g in
  let n_sims := n_initial_round in
  if n_particles <? n_initial_round then
    let sortidx := np_argsort ds in
    do n_quantile <- n_quantile n_particles n_initial_round;
    do sorted_ds <- take ds sortidx;
    do eps_init <- get sorted_ds n_quantile;
    do sorted_ps <- take ps sortidx;
    Ok (mkArray2 (shape1 (np_array ps)) (firstn n_quantile sorted_ps),
        n_sims, eps_init, g')
  else
    do eps_init <- np_max ds;
    Ok (np_array ps, n_sims, eps_init, g').

(** [a[:, j]] *)
Definition column (a : array2) (j : nat) : vec :=
  map (fun p => nth j p NaN) (rows a).

(** [np.mean(ps, axis=0)] *)
Definition np_mean0 (a : array2) : vec :=
  map (fun j => xdiv (xsum (column a j)) (Fin (INR (shape0 a))))
      (seq 0 (shape1 a)).

(** [2.0 * (np.dot(ps.T, ps) / n_particles - np.outer(mean, mean))] *)
Definition population_cov (ps : array2) : list vec :=
  let n_particles := Fin (INR (shape0 ps)) in
  let mean := np_mean0 ps in
  let cols := seq 0 (shape1 ps) in
  map (fun j =>
         map (fun k =>
                xmul (Fin 2)
                  (xsub (xdiv (xsum (zip_with xmul (column ps j) (column ps k)))
                              n_particles)
                        (xmul (nth j mean NaN) (nth k mean NaN))))
             cols)
      cols.

(** Assignment of a vector to a row of length [d], with broadcasting. *)
Definition assign_row (d : nat) (v : vec) : res vec :=
  if length v =? d then Ok v
  else match v with
       | [x] => Ok (repeat x d)
       | _ => Raise ValueError
       end.

Section NextPopulation.

Variables (ps : array2) (log_weights : vec) (obs_data : option vec)
          (eps : xfloat).
Variables (weights : vec) (std : list vec).

(** The body of the [while] loop: one proposal for the slot, with its
    simulated data and distance. *)
Definition propose (g : rng W) : res (vec * option vec * xfloat * rng W) :=
  let (idx, g1) := discrete_sample W weights g in
  do ancestor <- get (rows ps) idx;
  let (z, g2) := rng_randn (shape1 ps) g1 in
  do step <- np_dot_mv std z;
  do moved <- broadcast2 xadd ancestor step;
  do new_p <- assign_row (shape1 ps) moved;
  let (data, g3) := sim_model W new_p g2 in
  Ok (new_p, data, calc_dist data obs_data, g3).

(** [while dist > eps: ...] for one slot; [new_p] is the current content of
    the slot, [n_sims] the counter. *)
Fixpoint propose_loop (fuel : nat) (dist : xfloat) (new_p : vec) (g : rng W)
  (n_sims : nat) : res (vec * rng W * nat) :=
  if xgtb dist eps then
    match fuel with
    | O => OutOfFuel
    | S fuel' =>
        do (new_p', _, dist', g') <- propose g;
        propose_loop fuel' dist' new_p' g' (S n_sims)
    end
  else Ok (new_p, g, n_sims).

(** The proposal number [k] (from 0) made for a slot whose loop starts in
    the generator state [g]. *)
Fixpoint nth_proposal (k : nat) (g : rng W)
  : res (vec * option vec * xfloat * rng W) :=
  match k with
  | O => propose g
  | S k' => do (_, _, _, g') <- propose g; nth_proposal k' g'
  end.

(** [not (dist > eps)], the test that ends the [while] loop, for a tolerance
    that is not NaN: the distance is at most [eps], or it is NaN. *)
Definition not_above (eps dist : xfloat) : bool := xleb dist eps || isnan dist.

(** [p] is the first proposal, among those made for a slot from the generator
    state [g], whose distance passes [test], and [g'] is the generator state
    that this proposal leaves. *)
Definition first_passing (test : xfloat -> bool) (g : rng W) (p : vec)
  (g' : rng W) : Prop :=
  exists k data d,
    nth_proposal k g = Ok (p, data, d, g') /\ test d = true /\
    forall j, j < k ->
      exists r, nth_proposal j g = Ok r /\ test (snd (fst r)) = false.

(** The slots filled one after the other from the generator state [g]: each
    particle is the first passing proposal made from the state that the slot
    before it left, and [g'] is the state after the last slot. *)
Fixpoint slots_filled (test : xfloat -> bool) (g : rng W) (new_ps : list vec)
  (g' : rng W) : Prop :=
  match new_ps with
  | [] => g' = g
  | p :: rest =>
      exists g1, first_passing test g p g1 /\ slots_filled test g1 rest g'
  end.

(** [-0.5 * np.sum(solve_triangular(std, (new_p - ps).T, lower=True) ** 2,
    axis=0)]: one entry for each particle of [ps]. *)
Definition log_kernel (new_p : vec) : vec :=
  map (fun p =>
         let x := solve_triangular W std (zip_with xsub new_p p) in
         xmul (Fin (- (1 / 2))) (xsum (map (fun y => xmul y y) x)))
      (rows ps).

Record next_state : Type := mkNext {
  nx_new_ps : list vec;
  nx_new_log_weights : vec;
  nx_n_sims : nat;
  nx_rng : rng W
}.

(** The body of the [for] loop: slot [i]. *)
Definition fill_slot (fuel : nat) (i : nat) (st : next_state) : res next_state :=
  do (new_p, g', n_sims') <-
     propose_loop fuel PInf (np_empty (shape1 ps)) (nx_rng st) (nx_n_sims st);
  do mixture <- broadcast2 xadd log_weights (log_kernel new_p);
  do new_log_weights' <-
     set (nx_new_log_weights st) i
         (xsub (prior_eval W new_p) (logsumexp mixture));
  Ok (mkNext (nx_new_ps st ++ [new_p]) new_log_weights' n_sims' g').

(** [for i in range(n_particles): ...] *)
Fixpoint fill_slots (fuel : nat) (slots : list nat) (st : next_state)
  : res next_state :=
  match slots with
  | [] => Ok st
  | i :: slots' =>
      do st' <- fill_slot fuel i st;
      fill_slots fuel slots' st'
  end.

End NextPopulation.

(** [new_log_weights -= logsumexp(new_log_weights)], without the rounding of
    the difference. *)
Definition normalize (log_weights : vec) : vec :=
  let total := logsumexp log_weights in
  map (fun w => xsub w total) log_weights.

(** [sample_next_population]: the new population, its log-weights, the number
    of simulations.  The rows of [new_ps] are written in order, each before
    it is read, so the model appends them. *)
Definition sample_next_population (fuel : nat) (ps : array2) (log_weights : vec)
  (obs_data : option vec) (eps : xfloat) (g : rng W)
  : res (array2 * vec * nat * rng W) :=
  let n_particles := shape0 ps in
  let weights := map xexp log_weights in
  do std <- cholesky W (population_cov ps);
  do st <- fill_slots ps log_weights obs_data eps weights std fuel
             (seq 0 n_particles)
             (mkNext [] (np_empty (length log_weights)) 0 g);
  Ok (mkArray2 (shape1 ps) (nx_new_ps st),
      normalize (nx_new_log_weights st), nx_n_sims st, nx_rng st).

(** [resample_population] *)
Definition resample_population (ps : array2) (log_weights : vec) (g : rng W)
  : res (array2 * rng W) :=
  let n_particles := shape0 ps in
  let (idx, g') := discrete_sample_n (map xexp log_weights) n_particles g in
  do picked <- take (rows ps) idx;
  Ok (mkArray2 (shape1 ps) picked, g').

Record History : Type := mkHistory {
  all_ps : list array2;
  all_log_weights : list vec;
  all_eps : list xfloat;
  all_log_ess : list xfloat;
  all_n_sims : list nat
}.

Definition record (h : History) (ps : array2) (log_weights : vec)
  (eps log_ess : xfloat) (n_sims : nat) : History :=
  mkHistory (all_ps h ++ [ps]) (all_log_weights h ++ [log_weights])
            (all_eps h ++ [eps]) (all_log_ess h ++ [log_ess])
            (all_n_sims h ++ [n_sims]).

(** [log_ess = -logsumexp(2.0 * log_weights) - log_n_particles], without the
    rounding of [logsumexp] and of the difference. *)
Definition log_ess_of (log_weights : vec) (log_n_particles : xfloat) : xfloat :=
  xsub (xopp (logsumexp (map (xmul (Fin 2)) log_weights))) log_n_particles.

Section RunLoop.

Variables (obs_data : option vec) (eps_decay : xfloat)
          (n_particles n_sims_budget : nat) (ess_min : xfloat).

(** [log_ess_min = np.log(ess_min)], [log_n_particles = np.log(n_particles)] *)
Definition log_ess_min : xfloat := xlog ess_min.
Definition log_n_particles : xfloat := xlog (Fin (INR n_particles)).

(** [while n_sims < n_sims_budget: ...].  The [except] clause names
    [SimulationBudgetExceeded], which the module does not define: an exception
    raised in the [try] block surfaces as a NameError. *)
Fixpoint run_loop (fuel : nat) (ps : array2) (log_weights : vec) (eps : xfloat)
  (n_sims : nat) (g : rng W) (h : History) : res (History * rng W) :=
  if n_sims <? n_sims_budget then
    match fuel with
    | O => OutOfFuel
    | S fuel' =>
        let eps := xmul eps eps_decay in
        match sample_next_population fuel' ps log_weights obs_data eps g with
        | OutOfFuel => OutOfFuel
        | Raise _ => Raise NameError
        | Ok (ps, log_weights, n_new_sims, g) =>
            let n_sims := n_sims + n_new_sims in
            let log_ess := log_ess_of log_weights log_n_particles in
            do (ps, log_weights, g) <-
               (if xltb log_ess log_ess_min then
                  do (ps, g) <- resample_population ps log_weights g;
                  Ok (ps, np_full n_particles (xopp log_n_particles), g)
                else Ok (ps, log_weights, g));
            let h := record h ps log_weights eps log_ess n_sims in
            if n_sims_budget <=? n_sims then Ok (h, g)
            else run_loop fuel' ps log_weights eps n_sims g h
        end
    end
  else Ok (h, g).

(** [SMC.run] *)
Definition SMC_run (fuel : nat) (n_initial_round : nat) (g : rng W)
  : res (History * rng W) :=
  do (ps, n_sims, eps_init, g) <-
     sample_initial_population obs_data n_particles n_initial_round g;
  let eps := eps_init in
  let log_weights := np_full n_particles (xopp log_n_particles) in
  let h := record (mkHistory [] [] [] [] []) ps log_weights eps (Fin 0) n_sims in
  run_loop fuel ps log_weights eps n_sims g h.

End RunLoop.

End Samplers.

(** ** Order of a recorded sequence *)



(** ** A deterministic one-dimensional world

    The prior draws the values of [gens] one after the other and has log
    density [0] on [[lo, +inf)] and [-inf] below [lo]; the simulator squares
    its parameter, or fails when [fails] says so; every normal draw is [z],
    every uniform draw is [0], so that [discrete_sample] picks index [0]. *)

Section Stub.

Variables (gens : nat -> R) (lo z : R) (fails : vec -> bool).

Definition stub_prior_gen (g : nat) : vec * nat := ([Fin (gens g)], S g).

Definition stub_prior_eval (p : vec) : xfloat :=
  match p with
  | [Fin x] => if Rltb x lo then NInf else Fin 0
  | _ => NInf
  end.

Definition stub_sim_model (p : vec) (g : nat) : option vec * nat :=
  (if fails p then None else Some (map (fun x => xmul x x) p), g).

Definition stub_cholesky (m : list vec) : res (list vec) :=
  match m with
  | [[Fin c]] => if Rltb 0 c then Ok [[Fin (sqrt c)]] else Raise LinAlgError
  | _ => Raise LinAlgError
  end.

Definition stub_solve_triangular (l : list vec) (b : vec) : vec :=
  match l, b with
  | [[d]], [x] => [xdiv x d]
  | _, _ => []
  end.

Definition stub : World :=
  mkWorld nat stub_prior_gen stub_prior_eval stub_sim_model
          (fun g => (z, g)) (fun g => (0%R, g)) (fun _ g => (0, g))
          stub_cholesky stub_solve_triangular (fun _ => Fin 0).

End Stub.

Definition never_fails (_ : vec) : bool := false.
Definition always_fails (_ : vec) : bool := true.

(** Prior draws [-1, 1, 1, ...]: with the observation [1] both particles are
    at distance [0]. *)
Definition gens_mirror (g : nat) : R := match g with O => (-1)%R | _ => 1%R end.

(** Prior draws [1, 3, 3, ...]. *)
Definition gens_odd (g : nat) : R := match g with O => 1%R | _ => 3%R end.

(** The proposals of [world_mirror] repeat their ancestor. *)
Definition world_mirror : World := stub gens_mirror (-1) 0 never_fails.

(** The prior of [world_outside] has support [[0, +inf)]; its proposals land
    on [-1], outside the support, with the same data as the ancestor [1]. *)
Definition world_outside : World := stub gens_odd 0 (- sqrt 2) never_fails.

(** A simulator that always fails. *)
Definition world_failing : World := stub gens_odd 0 0 always_fails.

Definition obs_one : option vec := Some [Fin 1].

(** ** Log-weights as weights *)

(** A log-weight that is a real number or [-inf] stands for the weight
    [exp w]; the others (NaN, [+inf]) stand for none. *)
Definition proper (w : xfloat) : bool :=
  match w with Fin _ | NInf => true | _ => false end.

Definition weight_of (w : xfloat) : R :=
  match w with Fin r => exp r | _ => 0%R end.

Definition total_weight (v : vec) : R :=
  fold_right (fun w acc => (weight_of w + acc)%R) 0%R v.

Definition total_square (v : vec) : R :=
  fold_right (fun w acc => (weight_of w * weight_of w + acc)%R) 0%R v.

(** ** The maximum of recorded distances *)

(** [m] is the maximum of [ds] as [np.max] understands it: NaN as soon as one
    entry is NaN, otherwise an entry that no entry exceeds. *)
Definition is_maximum (m : xfloat) (ds : vec) : Prop :=
  (In NaN ds /\ m = NaN) \/
  (~ In NaN ds /\ In m ds /\ Forall (fun d => xleb d m = true) ds).

(** The order of the indices [sortidx] by their values in [ds]. *)
Definition ascending (ds : vec) (sortidx : list nat) : Prop :=
  StronglySorted (fun i j => np_le (nth i ds NaN) (nth j ds NaN) = true) sortidx.

(** ** Ranges of distances and tolerances *)

(** A value that is NaN, [+inf] or a real number that is not negative. *)
Definition not_negative (x : xfloat) : Prop :=
  x = NaN \/ x = PInf \/ exists r, x = Fin r /\ (0 <= r)%R.

(** A tolerance that no distance is below: NaN, [-inf], zero or a negative
    number. *)
Definition not_positive (eps : xfloat) : Prop :=
  eps = NaN \/ eps = NInf \/ exists e, eps = Fin e /\ (e <= 0)%R.

(** ** Runs of [Rejection.run] one after the other *)

(** The results of two runs put together: the samples and the distances of
    the first followed by those of the second, and the sum of the simulation
    counts. *)
Definition rejection_join (r1 r2 : rejection_result) : rejection_result :=
  match r1, r2 with
  | RejectionInfo ps1 d1 n1, RejectionInfo ps2 d2 n2 =>
      RejectionInfo (ps1 ++ ps2) (d1 ++ d2) (n1 + n2)
  | RejectionPlain ps1, RejectionPlain ps2 => RejectionPlain (ps1 ++ ps2)
  | _, _ => r1
  end.

(** The loop variables [st] of a loop that started from the variables [base]
    instead of from empty lists and zero counters. *)
Definition shift (base st : rejection_state) : rejection_state :=
  mkRejection (rj_ps base ++ rj_ps st) (rj_dist base ++ rj_dist st)
              (rj_n_sims base + rj_n_sims st)
              (rj_n_accepted base + rj_n_accepted st).

(** ** The sequences recorded by [SMC.run] *)

(** Each value is at least the one before it. *)
Fixpoint non_decreasing (l : list nat) : Prop :=
  match l with
  | a :: (b :: _) as tl => a <= b /\ non_decreasing tl
  | _ => True
  end.

(** The tolerance after [k] iterations: [eps_init] multiplied [k] times by
    [eps_decay]. *)
Definition decayed (eps_init eps_decay : xfloat) (k : nat) : xfloat :=
  Nat.iter k (fun eps => xmul eps eps_decay) eps_init.

(** The population and the log-weights that an iteration of [SMC.run] stores:
    the ones [sample_next_population] returned, or a resampled population with
    uniform log-weights. *)
Definition stored (W : World) (n_particles : nat)
  (ps1 : array2) (lw1 : vec) (ps2 : array2) (lw2 : vec) : Prop :=
  (ps2 = ps1 /\ lw2 = lw1) \/
  ((exists g2 g3, resample_population W ps1 lw1 g2 = Ok (ps2, g3)) /\
   lw2 = np_full n_particles (xopp (log_n_particles n_particles))).

(** * Properties *)

(** ** Results and comparisons *)

Lemma bind_Ok {A B : Type} (m : res A) (k : A -> res B) (b : B) :
  bind m k = Ok b -> exists a, m = Ok a /\ k a = Ok b.
Proof.
  destruct m as [a| |]; simpl; intros H; try discriminate.
  exists a; split; [reflexivity | exact H].
Qed.

(** Splits a hypothesis [bind m k = Ok b] into its two steps. *)
Ltac bind_inv H :=
  let a := fresh "a" in
  let Ha := fresh "Hm" in
  apply bind_Ok in H; destruct H as (a & Ha & H).

Lemma Rltb_true (a b : R) : (a < b)%R -> Rltb a b = true.
Proof. intros H; unfold Rltb; destruct (Rlt_dec a b); [reflexivity | contradiction]. Qed.

Lemma Rltb_false (a b : R) : (b <= a)%R -> Rltb a b = false.
Proof. intros H; unfold Rltb; destruct (Rlt_dec a b); [lra | reflexivity]. Qed.

Lemma Rltb_spec (a b : R) : Rltb a b = true <-> (a < b)%R.
Proof.
  unfold Rltb; destruct (Rlt_dec a b); split; intros; try discriminate; auto.
Qed.

Lemma Reqb_true (a b : R) : a = b -> Reqb a b = true.
Proof. intros H; unfold Reqb; destruct (Req_dec_T a b); [reflexivity | contradiction]. Qed.

Lemma Reqb_false (a b : R) : a <> b -> Reqb a b = false.
Proof. intros H; unfold Reqb; destruct (Req_dec_T a b); [contradiction | reflexivity]. Qed.


Lemma xltb_irrefl (x : xfloat) : xltb x x = false.
Proof. destruct x; simpl; try reflexivity. apply Rltb_false; lra. Qed.

(** The loop test [inf > eps] holds for a finite [eps] and for [-inf] only. *)
Lemma xgtb_PInf (eps : xfloat) :
  xgtb PInf eps = true <-> (exists e, eps = Fin e) \/ eps = NInf.
Proof.
  unfold xgtb; destruct eps; simpl; split; intros H;
    try discriminate; eauto;
    destruct H as [[e H] | H]; discriminate.
Qed.

(** ** [calc_dist] and the acceptance tests *)

Lemma calc_dist_None_l (d : option vec) : calc_dist None d = PInf.
Proof. reflexivity. Qed.


Section RejectionFacts.

Context (W : World).
Variables (obs_data : option vec) (eps : xfloat) (n_samples : nat) (info : bool).

Lemma rejection_loop_trace (fuel : nat) :
  forall st g st' g',
    rejection_loop W fuel obs_data eps n_samples info st g = Ok (st', g') ->
    exists k,
      let tr := draws W k obs_data g in
      rj_ps st' = rj_ps st ++ map fst (filter (within eps) tr) /\
      rj_dist st' = rj_dist st ++ (if info then map snd tr else []) /\
      rj_n_sims st' = rj_n_sims st + k /\
      rj_n_accepted st' = rj_n_accepted st + length (filter (within eps) tr) /\
      (rj_n_accepted st <= n_samples -> rj_n_accepted st' = n_samples).
Proof.
  assert (Hstop : forall st g st' g',
             (rj_n_accepted st <? n_samples) = false ->
             Ok (st, g) = Ok (st', g') ->
             exists k,
               let tr := draws W k obs_data g in
               rj_ps st' = rj_ps st ++ map fst (filter (within eps) tr) /\
               rj_dist st' = rj_dist st ++ (if info then map snd tr else []) /\
               rj_n_sims st' = rj_n_sims st + k /\
               rj_n_accepted st' =
                 rj_n_accepted st + length (filter (within eps) tr) /\
               (rj_n_accepted st <= n_samples -> rj_n_accepted st' = n_samples)).
  { intros st g st' g' Hlt [= <- <-]. exists 0; cbn.
    apply Nat.ltb_ge in Hlt.
    rewrite !app_nil_r, !Nat.add_0_r.
    repeat split; try lia.
    destruct info; rewrite ?app_nil_r; reflexivity. }
  induction fuel as [|fuel IH]; intros st g st' g'; cbn [rejection_loop].
  - destruct (rj_n_accepted st <? n_samples) eqn:Hlt; [discriminate|].
    apply Hstop; exact Hlt.
  - destruct (rj_n_accepted st <? n_samples) eqn:Hlt; [|apply Hstop; exact Hlt].
    apply Nat.ltb_lt in Hlt.
    unfold rejection_step.
    destruct (draw W obs_data g) as [[[p data] d] g1] eqn:Hd.
    intros H. apply IH in H. destruct H as (k & Hps & Hdist & Hsims & Hacc & Hfin).
    cbn [rj_ps rj_dist rj_n_sims rj_n_accepted] in Hps, Hdist, Hsims, Hacc, Hfin.
    exists (S k). cbn [draws]. rewrite Hd. cbn [filter map].
    change (within eps (p, d)) with (xltb d eps).
    rewrite Hps, Hdist, Hsims, Hacc.
    destruct (xltb d eps); cbn [map length fst snd];
      rewrite <- ?app_assoc; cbn [app];
      repeat split; try lia;
      try (destruct info; rewrite <- ?app_assoc; reflexivity);
      intros _; rewrite <- Hacc; apply Hfin; lia.
Qed.

(** More fuel does not change a result. *)
Lemma rejection_loop_fuel (fuel : nat) :
  forall st g r,
    rejection_loop W fuel obs_data eps n_samples info st g = Ok r ->
    rejection_loop W (S fuel) obs_data eps n_samples info st g = Ok r.
Proof.
  induction fuel as [|fuel IH]; intros st g r.
  - simpl. destruct (rj_n_accepted st <? n_samples); [discriminate | auto].
  - intros H. simpl in H.
    change (rejection_loop W (S (S fuel)) obs_data eps n_samples info st g)
      with (if rj_n_accepted st <? n_samples
            then let (st', g') := rejection_step W obs_data eps info st g in
                 rejection_loop W (S fuel) obs_data eps n_samples info st' g'
            else Ok (st, g)).
    destruct (rj_n_accepted st <? n_samples); [|exact H].
    destruct (rejection_step W obs_data eps info st g) as [st1 g1].
    apply IH; exact H.
Qed.

End RejectionFacts.

Lemma draws_length (W : World) (obs_data : option vec) (k : nat) :
  forall g, length (draws W k obs_data g) = k.
Proof.
  induction k as [|k IH]; intros g; cbn [draws]; [reflexivity|].
  destruct (draw W obs_data g) as [[[p data] d] g1].
  cbn [length]. rewrite IH. reflexivity.
Qed.

Lemma filter_within (eps : xfloat) (tr : list (vec * xfloat)) :
  Forall (fun d => xltb (snd d) eps = true) (filter (within eps) tr).
Proof.
  apply Forall_forall. intros d Hd. apply filter_In in Hd. exact (proj2 Hd).
Qed.

(** C4: when [Rejection.run] returns, its result is read off the sequence of
    draws it made: the [n_sims] recorded distances are those of the draws, the
    returned samples are exactly the draws whose distance is below [eps], there
    are [n_samples] of them, and [n_sims >= n_samples]. *)
Theorem Rejection_run_accepted (W : World) (fuel : nat) (obs_data : option vec)
  (eps : xfloat) (n_samples : nat) (info : bool) (g g' : rng W)
  (r : rejection_result) :
  Rejection_run W fuel obs_data eps n_samples info g = Ok (r, g') ->
  exists n_sims,
    let tr := draws W n_sims obs_data g in
    let accepted := filter (within eps) tr in
    r = (if info then RejectionInfo (map fst accepted) (map snd tr) n_sims
         else RejectionPlain (map fst accepted)) /\
    length (map fst accepted) = n_samples /\
    Forall (fun d => xltb (snd d) eps = true) accepted /\
    n_samples <= n_sims.
Proof.
  unfold Rejection_run. intros H. bind_inv H. destruct a as [st g1].
  injection H as <- <-.
  apply rejection_loop_trace in Hm.
  destruct Hm as (k & Hps & Hdist & Hsims & Hacc & Hfin).
  cbn [rj_ps rj_dist rj_n_sims rj_n_accepted app Nat.add] in *.
  exists k. cbn zeta.
  specialize (Hfin (Nat.le_0_l _)).
  repeat split.
  - rewrite Hps. destruct info; [rewrite Hdist, Hsims|]; reflexivity.
  - rewrite length_map. congruence.
  - apply filter_within.
  - rewrite <- Hfin, Hacc.
    rewrite <- (draws_length W obs_data k g) at 2.
    apply filter_length_le.
Qed.

(** ** MCMC *)

Section McmcFacts.

Context (W : World).

Lemma rng_randn_length (n : nat) :
  forall g, length (fst (rng_randn W n g)) = n.
Proof.
  induction n as [|n IH]; intros g; cbn [rng_randn]; [reflexivity|].
  destruct (rng_normal W g) as [z g1].
  specialize (IH g1). destruct (rng_randn W n g1) as [zs g2].
  cbn [fst length] in *. rewrite IH. reflexivity.
Qed.



Variables (obs_data : option vec) (eps step : xfloat) (n_dim : nat).

Lemma mcmc_move_chain (st : mcmc_state) (g : rng W) :
  let st' := fst (mcmc_move W obs_data eps step n_dim st g) in
  mc_ps st' = mc_ps st ++ [cur_ps (mc_self st')].
Proof.
  unfold mcmc_move.
  destruct (mcmc_propose W obs_data step n_dim (mc_self st) g)
    as [[[prop_ps data] d] g2].
  destruct (xltb d eps); [|reflexivity].
  destruct (rng_rand W g2) as [u g3].
  destruct (xltb (Fin u) _); reflexivity.
Qed.



(** An iteration that gets past its log line has made its move and has a
    distance to format. *)
Lemma mcmc_step_Ok (st st' : mcmc_state) (g g' : rng W) :
  mcmc_step W obs_data eps step n_dim st g = Ok (st', g') ->
  mcmc_move W obs_data eps step n_dim st g = (st', g') /\
  mc_cur_dist st' <> None.
Proof.
  unfold mcmc_step.
  destruct (mcmc_move W obs_data eps step n_dim st g) as [st1 g1].
  destruct (mc_cur_dist st1) eqn:Hd; [|discriminate].
  intros [= <- <-]. split; [reflexivity | congruence].
Qed.

(** An iteration that has a distance to format does not raise. *)
Lemma mcmc_step_formats (st : mcmc_state) (g : rng W) :
  mc_cur_dist (fst (mcmc_move W obs_data eps step n_dim st g)) <> None ->
  mcmc_step W obs_data eps step n_dim st g
  = Ok (mcmc_move W obs_data eps step n_dim st g).
Proof.
  unfold mcmc_step.
  destruct (mcmc_move W obs_data eps step n_dim st g) as [st1 g1].
  cbn [fst]. destruct (mc_cur_dist st1); [reflexivity | congruence].
Qed.

(** Once set, [cur_dist] stays set. *)
Lemma mcmc_move_cur_dist (st : mcmc_state) (g : rng W) :
  mc_cur_dist st <> None ->
  mc_cur_dist (fst (mcmc_move W obs_data eps step n_dim st g)) <> None.
Proof.
  intros Hd. unfold mcmc_move.
  destruct (mcmc_propose W obs_data step n_dim (mc_self st) g)
    as [[[prop_ps data] d] g2].
  destruct (xltb d eps); [|exact Hd].
  destruct (rng_rand W g2) as [u g3].
  destruct (xltb (Fin u) _); [discriminate | exact Hd].
Qed.



(** A property that every move keeps holds after every loop that
    returns. *)
Lemma mcmc_loop_invariant (P : mcmc_state -> Prop) :
  (forall st g, P st -> P (fst (mcmc_move W obs_data eps step n_dim st g))) ->
  forall n st g st' g',
    mcmc_loop W n obs_data eps step n_dim st g = Ok (st', g') ->
    P st -> P st'.
Proof.
  intros Hmove. induction n as [|n IH]; intros st g st' g' H HP;
    cbn [mcmc_loop] in H.
  - injection H as <- _. exact HP.
  - bind_inv H. destruct a as [st1 g1].
    apply mcmc_step_Ok in Hm. destruct Hm as [Hm _].
    apply (IH _ _ _ _ H). specialize (Hmove st g HP).
    rewrite Hm in Hmove. exact Hmove.
Qed.

Lemma mcmc_loop_length (n : nat) :
  forall st g st' g',
    mcmc_loop W n obs_data eps step n_dim st g = Ok (st', g') ->
    length (mc_ps st') = length (mc_ps st) + n.
Proof.
  induction n as [|n IH]; intros st g st' g' H; cbn [mcmc_loop] in H.
  - injection H as <- _. lia.
  - bind_inv H. destruct a as [st1 g1].
    apply mcmc_step_Ok in Hm. destruct Hm as [Hm _].
    pose proof (mcmc_move_chain st g) as Hc. cbn zeta in Hc.
    rewrite Hm in Hc. cbn [fst] in Hc.
    rewrite (IH _ _ _ _ H), Hc, length_app. cbn [length]. lia.
Qed.


End McmcFacts.

(** What a run of [MCMC.run] that returns has done. *)
Lemma MCMC_run_inv (W : World) self obs_data eps step n_samples info
  (g g' : rng W) r self' :
  MCMC_run W self obs_data eps step n_samples info g = Ok (r, self', g') ->
  n_samples <> 0 /\
  exists st,
    mcmc_loop W n_samples obs_data eps step (length (cur_ps self))
              (mkMcmcState self [] 0 None) g = Ok (st, g') /\
    self' = mc_self st /\ mcmc_chain r = mc_ps st /\
    (info = true ->
     r = McmcInfo (mc_ps st) (Fin (INR (mc_n_accepted st) / INR n_samples))).
Proof.
  unfold MCMC_run. intros H. bind_inv H. destruct a as [st g1].
  destruct (n_samples =? 0) eqn:Hz; [discriminate|].
  injection H as <- <- <-. split; [now apply Nat.eqb_neq in Hz|].
  exists st. split; [exact Hm|].
  repeat split; destruct info; try reflexivity; discriminate.
Qed.



(** ** The retry loop of [sample_next_population] *)

Lemma xgtb_PInf_of (x eps : xfloat) : xgtb x eps = true -> xgtb PInf eps = true.
Proof. unfold xgtb. destruct eps, x; cbn; intros H; try discriminate; reflexivity. Qed.

Section ProposeFacts.

Context (W : World).
Variables (ps : array2) (obs_data : option vec) (eps : xfloat)
          (weights : vec) (std : list vec).

Local Abbreviation propose' := (propose W ps obs_data weights std).
Local Abbreviation loop' := (propose_loop W ps obs_data eps weights std).
Local Abbreviation nth' := (nth_proposal W ps obs_data weights std).

Lemma propose_dist g p data d g' :
  propose' g = Ok (p, data, d, g') -> d = calc_dist data obs_data.
Proof.
  unfold propose.
  destruct (discrete_sample W weights g) as [idx g1].
  intros H. bind_inv H.
  destruct (rng_randn W (shape1 ps) g1) as [z g2].
  bind_inv H. bind_inv H. bind_inv H.
  destruct (sim_model W a2 g2) as [data' g3].
  injection H as _ <- <- _. reflexivity.
Qed.

(** A slot whose loop runs at all ends on the first proposal whose distance
    is not greater than [eps]; the data of that proposal are not absent. *)
Lemma propose_loop_first (fuel : nat) :
  forall dist u g n p g' n',
    loop' fuel dist u g n = Ok (p, g', n') ->
    xgtb dist eps = true ->
    exists k data d,
      nth' k g = Ok (p, Some data, d, g') /\
      xgtb d eps = false /\
      n' = n + S k /\
      forall j, j < k ->
        exists r, nth' j g = Ok r /\ xgtb (snd (fst r)) eps = true.
Proof.
  induction fuel as [|fuel IH]; intros dist u g n p g' n' H Hgt;
    cbn [propose_loop] in H; rewrite Hgt in H; [discriminate|].
  bind_inv H. destruct a as [[[p1 data1] d1] g1].
  destruct (xgtb d1 eps) eqn:Hd1.
  - destruct (IH _ _ _ _ _ _ _ H Hd1) as (k & data & d & Hk & Hd & Hn & Hbefore).
    exists (S k), data, d. cbn [nth_proposal]. rewrite Hm. cbn [bind].
    repeat split; try assumption; try lia.
    intros [|j] Hj.
    + exists (p1, data1, d1, g1). cbn [nth_proposal fst snd]. auto.
    + destruct (Hbefore j) as (r & Hr & Hrd); [lia|].
      exists r. cbn [nth_proposal]. rewrite Hm. cbn [bind]. auto.
  - destruct fuel; cbn [propose_loop] in H; rewrite Hd1 in H;
      injection H as <- <- <-.
    all: pose proof (propose_dist _ _ _ _ _ Hm) as Hdist.
    all: destruct data1 as [data|];
      [| rewrite calc_dist_None_l in Hdist; subst d1;
         apply xgtb_PInf_of in Hgt; congruence].
    all: exists 0, data, d1; cbn [nth_proposal];
      repeat split; try assumption; try lia.
Qed.

(** With [eps] equal to [+inf] or NaN the loop makes no proposal at all. *)
Lemma propose_loop_skip (fuel : nat) dist u g n :
  xgtb dist eps = false ->
  loop' fuel dist u g n = Ok (u, g, n).
Proof. intros H. destruct fuel; cbn [propose_loop]; rewrite H; reflexivity. Qed.

Variable log_weights : vec.

Local Abbreviation fill' :=
  (fill_slots W ps log_weights obs_data eps weights std).

Lemma not_above_spec (d : xfloat) :
  xgtb PInf eps = true -> negb (xgtb d eps) = not_above eps d.
Proof.
  unfold xgtb, not_above.
  destruct eps as [e| | |], d as [a| | |]; cbn; try discriminate;
    intros _; try reflexivity.
  now rewrite orb_false_r.
Qed.

Lemma fill_slots_rows (fuel : nat) (slots : list nat) :
  forall st st',
    fill' fuel slots st = Ok st' ->
    xgtb PInf eps = true ->
    exists new,
      nx_new_ps W st' = nx_new_ps W st ++ new /\
      length new = length slots /\
      slots_filled W ps obs_data weights std (not_above eps)
                   (nx_rng W st) new (nx_rng W st').
Proof.
  induction slots as [|i slots IH]; intros st st' H Hgt;
    cbn [fill_slots] in H.
  - injection H as <-. exists []. rewrite app_nil_r. repeat split.
  - bind_inv H. rename a into st1.
    destruct (IH _ _ H Hgt) as (new & Hnew & Hlen & Hall).
    unfold fill_slot in Hm. bind_inv Hm. destruct a as [[p g1] n1].
    bind_inv Hm. bind_inv Hm. injection Hm as <-.
    cbn [nx_new_ps nx_rng] in Hnew, Hall.
    exists (p :: new). rewrite Hnew, <- app_assoc. cbn [app length].
    repeat split; [lia|].
    cbn [slots_filled]. exists g1. split; [|exact Hall].
    eapply propose_loop_first in Hm0; [|exact Hgt].
    destruct Hm0 as (k & data & d & Hk & Hd & _ & Hbefore).
    exists k, (Some data), d.
    repeat split; [exact Hk | now rewrite <- not_above_spec, Hd |].
    intros j Hj. destruct (Hbefore j Hj) as (r & Hr & Hrd).
    exists r. split; [exact Hr | now rewrite <- not_above_spec, Hrd].
Qed.

End ProposeFacts.

(** C6 (amended): when [eps] is below [+inf] (and not NaN), the particles of
    the new population of [sample_next_population] are placed slot after
    slot: the first slot starts from the generator state of the call and each
    later slot from the state that the slot before it left, and the particle of
    a slot is the first of its proposals whose distance is at most [eps] or
    NaN, that is for which [dist > eps] is false. *)
Theorem sample_next_population_first (W : World) (fuel : nat) (ps : array2)
  (log_weights : vec) (obs_data : option vec) (eps : xfloat) (g g' : rng W)
  (new_ps : array2) (new_log_weights : vec) (n_sims : nat) :
  sample_next_population W fuel ps log_weights obs_data eps g
  = Ok (new_ps, new_log_weights, n_sims, g') ->
  xgtb PInf eps = true ->
  exists std,
    cholesky W (population_cov ps) = Ok std /\
    shape0 new_ps = shape0 ps /\
    slots_filled W ps obs_data (map xexp log_weights) std (not_above eps)
                 g (rows new_ps) g'.
Proof.
  unfold sample_next_population. intros H Hgt.
  bind_inv H. rename a into std. bind_inv H. rename a into st.
  injection H as <- _ _ <-.
  eapply fill_slots_rows in Hm0; [|exact Hgt].
  destruct Hm0 as (new & Hnew & Hlen & Hall).
  cbn [nx_new_ps nx_rng app] in Hnew, Hall.
  exists std. unfold shape0. cbn [rows]. rewrite Hnew.
  repeat split; [exact Hm | now rewrite Hlen, length_seq | exact Hall].
Qed.


(** ** [logsumexp] and normalized log-weights *)

Section Weights.

Local Open Scope R_scope.

Lemma total_weight_cons (w : xfloat) (v : vec) :
  total_weight (w :: v) = weight_of w + total_weight v.
Proof. reflexivity. Qed.

Lemma total_square_cons (w : xfloat) (v : vec) :
  total_square (w :: v) = weight_of w * weight_of w + total_square v.
Proof. reflexivity. Qed.

Lemma total_weight_nonneg (v : vec) : 0 <= total_weight v.
Proof.
  induction v as [|w v IH]; [cbn; lra|].
  rewrite total_weight_cons.
  destruct w; cbn [weight_of]; try lra. pose proof (exp_pos r). lra.
Qed.

Lemma xsum_NaN (v : vec) : In NaN v -> xsum v = NaN.
Proof.
  induction v as [|w v IH]; intros H; [contradiction|].
  cbn. destruct H as [-> | H]; [reflexivity|].
  unfold xsum in IH. rewrite (IH H). destruct w; reflexivity.
Qed.

(** The sum of the exponentials is the total weight when every entry is
    proper, and [+inf] or NaN otherwise. *)
Lemma xsum_exp_cases (v : vec) :
  (forallb proper v = true /\ xsum (map xexp v) = Fin (total_weight v)) \/
  (forallb proper v = false /\
   (xsum (map xexp v) = PInf \/ xsum (map xexp v) = NaN)).
Proof.
  induction v as [|w v IH]; [left; split; reflexivity|].
  cbn [forallb map]. change (xsum (xexp w :: map xexp v))
    with (xadd (xexp w) (xsum (map xexp v))).
  rewrite total_weight_cons.
  destruct IH as [[Hp Hs] | [Hp [Hs | Hs]]]; rewrite Hp, Hs;
    destruct w; cbn; auto.
Qed.

Lemma logsumexp_Fin_inv (v : vec) (r : R) :
  logsumexp v = Fin r ->
  forallb proper v = true /\ 0 < total_weight v /\ r = ln (total_weight v).
Proof.
  unfold logsumexp.
  destruct (xsum_exp_cases v) as [[Hp Hs] | [Hp [Hs | Hs]]]; rewrite Hs;
    cbn; try discriminate.
  unfold Rltb. destruct (Rlt_dec 0 (total_weight v)) as [Hpos|Hneg].
  - intros [= <-]. auto.
  - destruct (Reqb (total_weight v) 0); discriminate.
Qed.

Lemma logsumexp_proper (v : vec) :
  forallb proper v = true -> 0 < total_weight v ->
  logsumexp v = Fin (ln (total_weight v)).
Proof.
  intros Hp Hpos. unfold logsumexp.
  destruct (xsum_exp_cases v) as [[_ Hs] | [Hq _]]; [|congruence].
  rewrite Hs. cbn. rewrite Rltb_true by exact Hpos. reflexivity.
Qed.

Lemma logsumexp_NaN (v : vec) : In NaN v -> logsumexp v = NaN.
Proof.
  intros H. unfold logsumexp. rewrite xsum_NaN; [reflexivity|].
  change NaN with (xexp NaN). apply in_map. exact H.
Qed.

(** Without weight, every proper entry is [-inf]. *)
Lemma total_weight_zero (v : vec) :
  forallb proper v = true -> total_weight v = 0 -> Forall (eq NInf) v.
Proof.
  induction v as [|w v IH]; intros Hp Hz; [constructor|].
  cbn [forallb] in Hp. rewrite total_weight_cons in Hz.
  apply andb_prop in Hp. destruct Hp as [Hw Hp].
  pose proof (total_weight_nonneg v) as Hv.
  destruct w; try discriminate; cbn [weight_of] in Hz.
  - pose proof (exp_pos r). lra.
  - constructor; [reflexivity | apply IH; [exact Hp | lra]].
Qed.

Lemma improper_entry (v : vec) :
  forallb proper v = false -> In PInf v \/ In NaN v.
Proof.
  induction v as [|w v IH]; [discriminate|].
  cbn [forallb]. destruct w; cbn [proper andb]; intros H;
    try (destruct (IH H); [left | right]; right; assumption).
  - left; left; reflexivity.
  - right; left; reflexivity.
Qed.

Lemma shifted_weights (v : vec) (c : R) :
  forallb proper v = true ->
  forallb proper (map (fun w => xsub w (Fin c)) v) = true /\
  total_weight (map (fun w => xsub w (Fin c)) v) = total_weight v * exp (- c).
Proof.
  induction v as [|w v IH]; intros Hp; [cbn; split; [reflexivity | ring]|].
  cbn [forallb] in Hp. apply andb_prop in Hp. destruct Hp as [Hw Hp].
  destruct (IH Hp) as [IHp IHs].
  cbn [map forallb]. rewrite !total_weight_cons, IHp, IHs.
  destruct w; try discriminate; cbn [xsub xopp xadd proper andb weight_of];
    split; try reflexivity.
  - rewrite exp_plus. ring.
  - ring.
Qed.

(** Normalized log-weights have [logsumexp] zero, unless the total was not
    finite, in which case they contain a NaN. *)
Lemma normalize_cases (v : vec) :
  v <> [] -> logsumexp (normalize v) = Fin 0 \/ In NaN (normalize v).
Proof.
  intros Hne. unfold normalize.
  destruct (logsumexp v) as [c| | |] eqn:Hc.
  - left. apply logsumexp_Fin_inv in Hc. destruct Hc as (Hp & Hpos & ->).
    destruct (shifted_weights v (ln (total_weight v)) Hp) as [Hp' Hs'].
    rewrite logsumexp_proper; rewrite ?Hs'; [|exact Hp'|].
    + rewrite exp_Ropp, exp_ln by exact Hpos.
      rewrite Rinv_r by lra. now rewrite ln_1.
    + rewrite exp_Ropp, exp_ln by exact Hpos. rewrite Rinv_r by lra. lra.
  - right. unfold logsumexp in Hc.
    destruct (xsum_exp_cases v) as [[Hp Hs] | [Hp _]].
    + rewrite Hs in Hc. cbn in Hc.
      destruct (Rltb 0 (total_weight v)); [discriminate|].
      destruct (Reqb (total_weight v) 0); discriminate.
    + destruct (improper_entry v Hp) as [H | H];
        apply (in_map (fun w => xsub w PInf)) in H; exact H.
  - right. unfold logsumexp in Hc.
    destruct (xsum_exp_cases v) as [[Hp Hs] | [Hp [Hs | Hs]]];
      rewrite Hs in Hc; try discriminate.
    cbn in Hc. unfold Rltb, Reqb in Hc.
    destruct (Rlt_dec 0 (total_weight v)); [discriminate|].
    destruct (Req_dec_T (total_weight v) 0) as [Hz|]; [|discriminate].
    pose proof (total_weight_zero v Hp Hz) as Hall.
    destruct v as [|w v]; [contradiction|].
    inversion Hall; subst. left. reflexivity.
  - right. destruct v as [|w v]; [contradiction|].
    left. destruct w; reflexivity.
Qed.

Lemma normalize_length (v : vec) : length (normalize v) = length v.
Proof. unfold normalize. apply length_map. Qed.

Lemma log_n_particles_pos (n : nat) :
  (1 <= n)%nat -> log_n_particles n = Fin (ln (INR n)).
Proof.
  intros Hn. unfold log_n_particles. cbn.
  rewrite Rltb_true; [reflexivity|]. apply lt_0_INR. lia.
Qed.

Lemma doubled_weights (v : vec) :
  forallb proper v = true ->
  forallb proper (map (xmul (Fin 2)) v) = true /\
  total_weight (map (xmul (Fin 2)) v) = total_square v.
Proof.
  induction v as [|w v IH]; intros Hp; [split; reflexivity|].
  cbn [forallb] in Hp. apply andb_prop in Hp. destruct Hp as [Hw Hp].
  destruct (IH Hp) as [IHp IHs].
  cbn [map forallb]. rewrite total_weight_cons, total_square_cons, IHp, IHs.
  destruct w; try discriminate.
  - cbn [xmul proper andb weight_of]. split; [reflexivity|]. f_equal.
    replace (2 * r) with (r + r) by ring. apply exp_plus.
  - cbn [xmul]. unfold inf_times. rewrite Reqb_false by lra.
    rewrite Rltb_true by lra. cbn. split; [reflexivity | ring].
Qed.

(** The squared deviations from [m] are not negative. *)
Lemma square_deviation (v : vec) (m : R) :
  0 <= total_square v - 2 * m * total_weight v + INR (length v) * (m * m).
Proof.
  induction v as [|w v IH].
  - cbn. lra.
  - rewrite total_square_cons, total_weight_cons. cbn [length]. rewrite S_INR.
    pose proof (Rle_0_sqr (weight_of w - m)) as Hsq. unfold Rsqr in Hsq.
    lra.
Qed.

Lemma ln_nonneg (x : R) : 1 <= x -> 0 <= ln x.
Proof.
  intros [Hlt | <-]; [|rewrite ln_1; lra].
  rewrite <- ln_1. left. apply ln_increasing; lra.
Qed.

(** The effective sample size of normalized weights is at most the number of
    particles. *)
Lemma log_ess_normalized (v : vec) :
  logsumexp v = Fin 0 ->
  exists r, log_ess_of v (log_n_particles (length v)) = Fin r /\ r <= 0.
Proof.
  intros Hv. apply logsumexp_Fin_inv in Hv. destruct Hv as (Hp & Hpos & Hz).
  assert (Hone : total_weight v = 1).
  { apply ln_inv; [exact Hpos | lra | rewrite ln_1; lra]. }
  assert (Hn : (1 <= length v)%nat).
  { destruct v; [cbn in Hpos; lra | cbn; lia]. }
  assert (HN : 0 < INR (length v)) by (apply lt_0_INR; lia).
  destruct (doubled_weights v Hp) as [Hp2 Hs2].
  pose proof (square_deviation v (/ INR (length v))) as Hdev.
  rewrite Hone in Hdev.
  assert (Hq : 1 <= total_square v * INR (length v)).
  { replace (INR (length v) * (/ INR (length v) * / INR (length v)))
      with (/ INR (length v)) in Hdev by (field; lra).
    assert (Hinv : / INR (length v) <= total_square v) by lra.
    apply (Rmult_le_compat_r (INR (length v))) in Hinv; [|lra].
    rewrite Rinv_l in Hinv by lra. exact Hinv. }
  assert (Hsq : 0 < total_square v).
  { destruct (Rle_or_lt (total_square v) 0) as [Hle|]; [|assumption].
    assert (total_square v * INR (length v) <= 0); [|lra].
    replace 0 with (0 * INR (length v)) by ring.
    apply Rmult_le_compat_r; lra. }
  unfold log_ess_of.
  rewrite logsumexp_proper; rewrite ?Hs2; [|exact Hp2 | exact Hsq].
  rewrite log_n_particles_pos by exact Hn. cbn.
  eexists; split; [reflexivity|].
  pose proof (ln_nonneg _ Hq) as Hln.
  rewrite ln_mult in Hln by assumption. lra.
Qed.

Lemma weight_nonneg (w : xfloat) : 0 <= weight_of w.
Proof. destruct w; cbn; try lra. left. apply exp_pos. Qed.

Lemma total_square_le (v : vec) :
  total_square v <= total_weight v * total_weight v.
Proof.
  induction v as [|w v IH]; [cbn; lra|].
  rewrite total_square_cons, total_weight_cons.
  pose proof (weight_nonneg w) as Hw.
  pose proof (total_weight_nonneg v) as Hv.
  pose proof (Rmult_le_pos _ _ Hw Hv). nra.
Qed.

(** The effective sample size of normalized weights is at least one
    particle. *)
Lemma log_ess_at_least_one (v : vec) :
  logsumexp v = Fin 0 ->
  exists r,
    log_ess_of v (log_n_particles (length v)) = Fin r /\
    - ln (INR (length v)) <= r.
Proof.
  intros Hv. destruct (log_ess_normalized v Hv) as (r & Hr & _).
  exists r. split; [exact Hr|].
  apply logsumexp_Fin_inv in Hv. destruct Hv as (Hp & Hpos & Hz).
  assert (Hone : total_weight v = 1).
  { apply ln_inv; [exact Hpos | lra | rewrite ln_1; lra]. }
  assert (Hn : (1 <= length v)%nat).
  { destruct v; [cbn in Hpos; lra | cbn; lia]. }
  destruct (doubled_weights v Hp) as [Hp2 Hs2].
  pose proof (total_square_le v) as Hle. rewrite Hone in Hle.
  unfold log_ess_of in Hr.
  rewrite log_n_particles_pos in Hr by exact Hn.
  destruct (logsumexp (map (xmul (Fin 2)) v)) as [c| | |] eqn:Hc;
    cbn in Hr; try discriminate.
  apply logsumexp_Fin_inv in Hc. destruct Hc as (_ & Hsq & ->).
  rewrite Hs2 in *.
  injection Hr as <-.
  assert (ln (total_square v) <= 0); [|lra].
  destruct (Req_dec (total_square v) 1) as [-> | Hne]; [rewrite ln_1; lra|].
  rewrite <- ln_1. left. apply ln_increasing; lra.
Qed.

Lemma log_ess_NaN (v : vec) (c : xfloat) : In NaN v -> log_ess_of v c = NaN.
Proof.
  intros H. unfold log_ess_of. rewrite logsumexp_NaN; [reflexivity|].
  change NaN with (xmul (Fin 2) NaN). apply in_map. exact H.
Qed.

End Weights.

(** ** Sorting and indexing *)

Lemma np_lt_asym (a b : xfloat) : np_lt a b = true -> np_le a b = true.
Proof.
  unfold np_le. destruct a, b; cbn; try reflexivity; try discriminate.
  unfold Rltb. destruct (Rlt_dec r r0), (Rlt_dec r0 r); try reflexivity;
    try discriminate. lra.
Qed.

Lemma np_le_trans (a b c : xfloat) :
  np_le a b = true -> np_le b c = true -> np_le a c = true.
Proof.
  unfold np_le. destruct a, b, c; cbn; try reflexivity; try discriminate.
  unfold Rltb. destruct (Rlt_dec r0 r), (Rlt_dec r1 r0), (Rlt_dec r1 r);
    try reflexivity; try discriminate. lra.
Qed.

Lemma insert_idx_perm (v : vec) (i : nat) (l : list nat) :
  Permutation (insert_idx v i l) (i :: l).
Proof.
  induction l as [|j l IH]; cbn [insert_idx]; [reflexivity|].
  destruct (np_lt (nth j v NaN) (nth i v NaN)); [|reflexivity].
  rewrite IH. apply perm_swap.
Qed.

Lemma insert_idx_sorted (v : vec) (i : nat) (l : list nat) :
  ascending v l -> ascending v (insert_idx v i l).
Proof.
  unfold ascending.
  induction l as [|j l IH]; intros Hs; cbn [insert_idx].
  - repeat constructor.
  - apply StronglySorted_inv in Hs. destruct Hs as [Hl Hj].
    destruct (np_lt (nth j v NaN) (nth i v NaN)) eqn:Hlt.
    + constructor; [apply IH; exact Hl|].
      apply Forall_forall. intros x Hx.
      apply (Permutation_in _ (insert_idx_perm v i l)) in Hx.
      destruct Hx as [<- | Hx]; [apply np_lt_asym; exact Hlt|].
      rewrite Forall_forall in Hj. apply Hj; exact Hx.
    + assert (Hij : np_le (nth i v NaN) (nth j v NaN) = true)
        by (unfold np_le; rewrite Hlt; reflexivity).
      constructor; [constructor; assumption|].
      constructor; [exact Hij|].
      apply Forall_forall. intros x Hx. rewrite Forall_forall in Hj.
      apply (np_le_trans _ _ _ Hij). apply Hj; exact Hx.
Qed.

Lemma np_argsort_perm (v : vec) : Permutation (np_argsort v) (seq 0 (length v)).
Proof.
  unfold np_argsort. induction (seq 0 (length v)) as [|i l IH];
    cbn [fold_right]; [reflexivity|].
  rewrite insert_idx_perm. constructor. exact IH.
Qed.

Lemma np_argsort_sorted (v : vec) : ascending v (np_argsort v).
Proof.
  unfold np_argsort. induction (seq 0 (length v)) as [|i l IH];
    cbn [fold_right]; [constructor|].
  apply insert_idx_sorted. exact IH.
Qed.

Lemma np_argsort_length (v : vec) : length (np_argsort v) = length v.
Proof.
  rewrite (Permutation_length (np_argsort_perm v)). apply length_seq.
Qed.

Lemma np_argsort_bound (v : vec) :
  Forall (fun i => i < length v) (np_argsort v).
Proof.
  apply Forall_forall. intros i Hi.
  apply (Permutation_in _ (np_argsort_perm v)) in Hi.
  apply in_seq in Hi. lia.
Qed.

Lemma get_nth {A : Type} (l : list A) (i : nat) (d : A) :
  i < length l -> get l i = Ok (nth i l d).
Proof.
  intros Hi. unfold get. rewrite (nth_error_nth' l d Hi). reflexivity.
Qed.

Lemma take_map {A : Type} (l : list A) (idx : list nat) (d : A) :
  Forall (fun i => i < length l) idx ->
  take l idx = Ok (map (fun i => nth i l d) idx).
Proof.
  induction idx as [|i idx IH]; intros H; [reflexivity|].
  inversion H as [|? ? Hi Hidx]; subst.
  cbn [take map]. rewrite (get_nth l i d Hi), (IH Hidx). reflexivity.
Qed.

(** ** [np.max] *)

Lemma xleb_refl (a : xfloat) : a <> NaN -> xleb a a = true.
Proof.
  destruct a; cbn; try reflexivity; [|congruence].
  intros _. rewrite Rltb_false by lra. reflexivity.
Qed.

Lemma xleb_trans (a b c : xfloat) :
  xleb a b = true -> xleb b c = true -> xleb a c = true.
Proof.
  destruct a, b, c; cbn; try reflexivity; try discriminate.
  unfold Rltb. destruct (Rlt_dec r0 r), (Rlt_dec r1 r0), (Rlt_dec r1 r);
    try reflexivity; try discriminate. lra.
Qed.

Lemma xmax_cases (a b : xfloat) :
  a <> NaN -> b <> NaN ->
  (xmax a b = a \/ xmax a b = b) /\
  xleb a (xmax a b) = true /\ xleb b (xmax a b) = true.
Proof.
  intros Ha Hb. unfold xmax.
  destruct a, b; try congruence; cbn; auto;
    try (rewrite Rltb_false by lra; auto).
  unfold Rltb. destruct (Rlt_dec r r0), (Rlt_dec r0 r); cbn;
    repeat split; auto; try lra;
    try (rewrite Rltb_false by lra; reflexivity);
    try (rewrite Rltb_true by lra; reflexivity).
  all: unfold Rltb;
    repeat match goal with |- context [Rlt_dec ?x ?y] => destruct (Rlt_dec x y) end;
    cbn; auto; try lra.
Qed.

Lemma fold_xmax (v : vec) :
  forall x, is_maximum (fold_left xmax v x) (x :: v).
Proof.
  induction v as [|y v IH]; intros x; cbn [fold_left].
  - destruct x; [right | right | right | left];
      try (split; [intros [H | []]; discriminate|];
           split; [left; reflexivity|];
           repeat constructor; apply xleb_refl; discriminate).
    split; [left; reflexivity | reflexivity].
  - destruct (IH (xmax x y)) as [[Hin Hm] | (Hnan & Hin & Hall)].
    + left. split; [|exact Hm].
      destruct Hin as [Hin | Hin]; [|right; right; exact Hin].
      unfold xmax in Hin.
      destruct x; [| | |left; reflexivity];
        (destruct y; [| | |right; left; reflexivity]);
        cbn in Hin;
        repeat match type of Hin with
               | context [Rltb ?a ?b] => destruct (Rltb a b)
               end; discriminate.
    + assert (Hx : x <> NaN).
      { intros ->. apply Hnan. left. destruct y; reflexivity. }
      assert (Hy : y <> NaN).
      { intros ->. apply Hnan. left. unfold xmax.
        destruct x; reflexivity. }
      destruct (xmax_cases x y Hx Hy) as (Hsel & Hlx & Hly).
      inversion Hall as [|? ? Hmm Hallv]; subst.
      right. split; [|split].
      * intros [H | [H | H]]; try congruence.
        apply Hnan. right. exact H.
      * destruct Hin as [Hin | Hin]; [|right; right; exact Hin].
        rewrite <- Hin. destruct Hsel as [-> | ->];
          [left | right; left]; reflexivity.
      * constructor; [exact (xleb_trans _ _ _ Hlx Hmm)|].
        constructor; [exact (xleb_trans _ _ _ Hly Hmm) | exact Hallv].
Qed.

(** ** [sample_initial_population] *)

Lemma initial_round_length (W : World) (obs_data : option vec) (n : nat) :
  forall g,
    length (fst (fst (initial_round W n obs_data g))) = n /\
    length (snd (fst (initial_round W n obs_data g))) = n.
Proof.
  induction n as [|n IH]; intros g; cbn [initial_round]; [split; reflexivity|].
  destruct (draw W obs_data g) as [[[p data] d] g1].
  specialize (IH g1).
  destruct (initial_round W n obs_data g1) as [[ps ds] g2].
  cbn [fst snd length] in *. destruct IH as [-> ->]. split; reflexivity.
Qed.

(** The truncating branch: the first [nq] samples in ascending order of
    distance, and the distance at rank [nq]. *)
Lemma initial_population_truncated (W : World) (obs_data : option vec)
  (n_particles n_initial_round nq : nat) (g g' : rng W) ps ds :
  initial_round W n_initial_round obs_data g = (ps, ds, g') ->
  n_particles < n_initial_round ->
  n_quantile n_particles n_initial_round = Ok nq ->
  nq < n_initial_round ->
  exists sortidx,
    Permutation sortidx (seq 0 n_initial_round) /\
    ascending ds sortidx /\
    sample_initial_population W obs_data n_particles n_initial_round g
    = Ok (mkArray2 (shape1 (np_array ps))
                   (map (fun i => nth i ps []) (firstn nq sortidx)),
          n_initial_round, nth (nth nq sortidx 0) ds NaN, g').
Proof.
  intros Hround Hlt Hq Hnq.
  pose proof (initial_round_length W obs_data n_initial_round g) as Hlen.
  unfold sample_initial_population. rewrite Hround in *.
  cbn [fst snd] in Hlen. destruct Hlen as [Hps Hds].
  exists (np_argsort ds).
  pose proof (np_argsort_perm ds) as Hperm. rewrite Hds in Hperm.
  pose proof (np_argsort_bound ds) as Hbound.
  split; [exact Hperm|]. split; [apply np_argsort_sorted|].
  apply Nat.ltb_lt in Hlt. rewrite Hlt, Hq. cbn [bind].
  rewrite (take_map ds _ NaN Hbound). cbn [bind].
  rewrite (get_nth _ nq NaN)
    by (rewrite length_map, np_argsort_length; lia).
  cbn [bind].
  rewrite (take_map ps _ []) by (rewrite Hps, <- Hds; exact Hbound).
  cbn [bind].
  rewrite firstn_map.
  rewrite (nth_indep _ NaN (nth 0 ds NaN))
    by (rewrite length_map, np_argsort_length; lia).
  rewrite (map_nth (fun i => nth i ds NaN)). reflexivity.
Qed.

(** The other branch: every sample, and the maximum distance. *)
Lemma initial_population_all (W : World) (obs_data : option vec)
  (n_particles n_initial_round : nat) (g g' : rng W) ps ds :
  initial_round W n_initial_round obs_data g = (ps, ds, g') ->
  n_initial_round <= n_particles ->
  1 <= n_initial_round ->
  exists eps_init,
    is_maximum eps_init ds /\
    sample_initial_population W obs_data n_particles n_initial_round g
    = Ok (np_array ps, n_initial_round, eps_init, g').
Proof.
  intros Hround Hle Hpos.
  pose proof (initial_round_length W obs_data n_initial_round g) as Hlen.
  unfold sample_initial_population. rewrite Hround in *.
  cbn [fst snd] in Hlen. destruct Hlen as [Hps Hds].
  apply Nat.ltb_ge in Hle. rewrite Hle.
  destruct ds as [|d ds]; [cbn in Hds; lia|].
  exists (fold_left xmax ds d). split; [apply fold_xmax | reflexivity].
Qed.

(** C3 (amended): with [n_initial_round > n_particles] and the computed
    [n_quantile] a valid rank, the initial population consists of the
    [n_quantile] prior samples that come first when the samples are put in
    ascending order of distance, and [eps_init] is the distance at rank
    [n_quantile] of that order; with [1 <= n_initial_round <= n_particles] all
    samples are returned and [eps_init] is the maximum recorded distance. *)
Theorem sample_initial_population_selects (W : World) (obs_data : option vec)
  (n_particles n_initial_round : nat) (g : rng W) :
  let '(ps, ds, g') := initial_round W n_initial_round obs_data g in
  (n_particles < n_initial_round ->
   forall nq,
     n_quantile n_particles n_initial_round = Ok nq ->
     nq < n_initial_round ->
     exists sortidx,
       Permutation sortidx (seq 0 n_initial_round) /\
       ascending ds sortidx /\
       sample_initial_population W obs_data n_particles n_initial_round g
       = Ok (mkArray2 (shape1 (np_array ps))
                      (map (fun i => nth i ps []) (firstn nq sortidx)),
             n_initial_round, nth (nth nq sortidx 0) ds NaN, g')) /\
  (n_initial_round <= n_particles ->
   1 <= n_initial_round ->
   exists eps_init,
     is_maximum eps_init ds /\
     sample_initial_population W obs_data n_particles n_initial_round g
     = Ok (np_array ps, n_initial_round, eps_init, g')).
Proof.
  destruct (initial_round W n_initial_round obs_data g) as [[ps ds] g'] eqn:Hr.
  split.
  - intros Hlt nq Hq Hnq.
    exact (initial_population_truncated W obs_data n_particles n_initial_round
             nq g g' ps ds Hr Hlt Hq Hnq).
  - intros Hle Hpos.
    exact (initial_population_all W obs_data n_particles n_initial_round
             g g' ps ds Hr Hle Hpos).
Qed.

(** C3, at [n_initial_round = 0]: there is no distance to take the maximum
    of, and the call raises. *)
Lemma sample_initial_population_empty :
  sample_initial_population world_mirror obs_one 5 0 0 = Raise ValueError.
Proof. reflexivity. Qed.

(** ** The weights of a new population *)

Lemma set_length {A : Type} (l : list A) :
  forall i x l', set l i x = Ok l' -> length l' = length l.
Proof.
  induction l as [|y l IH]; intros [|i] x l' H; cbn [set] in H;
    try discriminate.
  - injection H as <-. reflexivity.
  - bind_inv H. injection H as <-. cbn [length]. f_equal. eapply IH; eassumption.
Qed.

Lemma np_empty_length (W : World) (n : nat) : length (np_empty W n) = n.
Proof. unfold np_empty. rewrite length_map. apply length_seq. Qed.

Lemma fill_slots_weights (W : World) ps log_weights obs_data eps weights std
  (fuel : nat) (slots : list nat) :
  forall st st',
    fill_slots W ps log_weights obs_data eps weights std fuel slots st = Ok st' ->
    length (nx_new_log_weights W st') = length (nx_new_log_weights W st).
Proof.
  induction slots as [|i slots IH]; intros st st' H; cbn [fill_slots] in H.
  - injection H as <-. reflexivity.
  - bind_inv H. rewrite (IH _ _ H).
    unfold fill_slot in Hm. bind_inv Hm. destruct a0 as [[p g1] n1].
    bind_inv Hm. bind_inv Hm. injection Hm as <-. cbn [nx_new_log_weights].
    eapply set_length; eassumption.
Qed.

(** The log-weights returned by [sample_next_population] are the result of
    the final normalization and are as many as the ones passed in. *)
Lemma sample_next_population_weights (W : World) (fuel : nat) (ps : array2)
  (log_weights : vec) (obs_data : option vec) (eps : xfloat) (g g' : rng W)
  (new_ps : array2) (new_log_weights : vec) (n_sims : nat) :
  sample_next_population W fuel ps log_weights obs_data eps g
  = Ok (new_ps, new_log_weights, n_sims, g') ->
  exists u, new_log_weights = normalize u /\ length u = length log_weights.
Proof.
  unfold sample_next_population. intros H.
  bind_inv H. bind_inv H. injection H as _ <- _ _.
  eexists; split; [reflexivity|].
  apply fill_slots_weights in Hm0. rewrite Hm0. cbn [nx_new_log_weights].
  apply np_empty_length.
Qed.

(** ** Invariants of the history built by [SMC.run] *)

Section RunInvariant.

Context (W : World).
Variables (obs_data : option vec) (eps_decay : xfloat)
          (n_particles n_sims_budget : nat) (ess_min : xfloat).

(** [Inv log_weights eps n_sims h]: a property of the loop variables and of
    the history recorded so far. *)
Variable Inv : vec -> xfloat -> nat -> History -> Prop.

Hypothesis Inv_step :
  forall fuel ps lw eps n_sims g h ps1 lw1 n_new g1 ps2 lw2,
    Inv lw eps n_sims h ->
    sample_next_population W fuel ps lw obs_data (xmul eps eps_decay) g
    = Ok (ps1, lw1, n_new, g1) ->
    lw2 = lw1 \/ lw2 = np_full n_particles (xopp (log_n_particles n_particles)) ->
    Inv lw2 (xmul eps eps_decay) (n_sims + n_new)
        (record h ps2 lw2 (xmul eps eps_decay)
                (log_ess_of lw1 (log_n_particles n_particles)) (n_sims + n_new)).

Lemma run_loop_invariant (fuel : nat) :
  forall ps lw eps n_sims g h h' g',
    Inv lw eps n_sims h ->
    run_loop W obs_data eps_decay n_particles n_sims_budget ess_min
             fuel ps lw eps n_sims g h = Ok (h', g') ->
    exists lw' eps' n_sims', Inv lw' eps' n_sims' h'.
Proof.
  induction fuel as [|fuel IH]; intros ps lw eps n_sims g h h' g' HI H;
    cbn [run_loop] in H;
    (destruct (n_sims <? n_sims_budget);
     [| injection H as <- _; eauto]); [discriminate|].
  destruct (sample_next_population W fuel ps lw obs_data (xmul eps eps_decay) g)
    as [[[[ps1 lw1] n_new] g1]| |] eqn:Hnext; try discriminate.
  bind_inv H. destruct a as [[ps2 lw2] g2].
  assert (Hlw : lw2 = lw1 \/
                lw2 = np_full n_particles (xopp (log_n_particles n_particles))).
  { destruct (xltb _ _).
    - bind_inv Hm. destruct a as [ps3 g3]. injection Hm as _ <- _. auto.
    - injection Hm as _ <- _. auto. }
  pose proof (Inv_step _ _ _ _ _ _ _ _ _ _ _ ps2 _ HI Hnext Hlw) as HI'.
  destruct (n_sims_budget <=? n_sims + n_new).
  - injection H as <- _. eauto.
  - eapply IH; eassumption.
Qed.

End RunInvariant.

Lemma SMC_run_inv (W : World) obs_data eps_decay n_particles n_sims_budget
  ess_min fuel n_initial_round (g g' : rng W) (h : History) :
  SMC_run W obs_data eps_decay n_particles n_sims_budget ess_min fuel
          n_initial_round g = Ok (h, g') ->
  exists ps n_sims eps_init g1,
    sample_initial_population W obs_data n_particles n_initial_round g
    = Ok (ps, n_sims, eps_init, g1) /\
    run_loop W obs_data eps_decay n_particles n_sims_budget ess_min fuel ps
             (np_full n_particles (xopp (log_n_particles n_particles)))
             eps_init n_sims g1
             (record (mkHistory [] [] [] [] []) ps
                     (np_full n_particles (xopp (log_n_particles n_particles)))
                     eps_init (Fin 0) n_sims)
    = Ok (h, g').
Proof.
  unfold SMC_run. intros H. bind_inv H.
  destruct a as [[[ps n_sims] eps_init] g1]. eauto 6.
Qed.

Lemma np_full_length (n : nat) (x : xfloat) : length (np_full n x) = n.
Proof. apply repeat_length. Qed.

Lemma hd_app {A : Type} (d : A) (l l' : list A) :
  l <> [] -> hd d (l ++ l') = hd d l.
Proof. destruct l; [congruence | reflexivity]. Qed.

(** C10: the first entry of [all_log_weights] returned by [SMC.run] has
    length [n_particles]; the first stored population can have fewer rows:
    with [n_particles = 1] and [n_initial_round = 49] the truncation keeps no
    particle at all. *)
Theorem SMC_run_first_weights :
  (forall (W : World) obs_data eps_decay n_particles n_sims_budget ess_min
          fuel n_initial_round (g g' : rng W) (h : History),
     SMC_run W obs_data eps_decay n_particles n_sims_budget ess_min fuel
             n_initial_round g = Ok (h, g') ->
     exists lw0 rest,
       all_log_weights h = lw0 :: rest /\ length lw0 = n_particles) /\
  (exists (h : History) (g' : rng world_mirror) ps0 lw0,
     SMC_run world_mirror obs_one (Fin (1 / 2)) 1 49 (Fin (1 / 2)) 0 49 0
     = Ok (h, g') /\
     all_ps h = [ps0] /\ all_log_weights h = [lw0] /\
     shape0 ps0 = 0 /\ length lw0 = 1).
Proof.
  split.
  - intros W obs_data eps_decay n_particles n_sims_budget ess_min fuel
           n_initial_round g g' h H.
    apply SMC_run_inv in H.
    destruct H as (ps & n_sims & eps_init & g1 & _ & H).
    eapply (run_loop_invariant W obs_data eps_decay n_particles n_sims_budget
              ess_min
              (fun _ _ _ h =>
                 exists lw0 rest,
                   all_log_weights h = lw0 :: rest /\ length lw0 = n_particles))
      in H.
    + destruct H as (_ & _ & _ & H). exact H.
    + intros fuel0 ps0 lw eps n_sims0 g0 h0 ps1 lw1 n_new g2 ps2 lw2
             (lw0 & rest & Hh & Hlen) _ _.
      cbn [record all_log_weights]. rewrite Hh.
      exists lw0, (rest ++ [lw2]). split; [reflexivity | exact Hlen].
    + cbn [record all_log_weights app]. eexists _, []. split; [reflexivity|].
      apply np_full_length.
  - destruct (initial_round world_mirror 49 obs_one 0) as [[ps ds] g1] eqn:Hr.
    destruct (initial_population_truncated world_mirror obs_one 1 49 0 0 g1
                ps ds Hr) as (sortidx & _ & _ & Hinit);
      [lia | vm_compute; reflexivity | lia |].
    unfold SMC_run. rewrite Hinit. cbn [bind run_loop Nat.ltb Nat.leb].
    destruct (49 <? 49) eqn:Hb; [discriminate|].
    eexists _, _, _, _. split; [reflexivity|].
    cbn [record all_ps all_log_weights app firstn map shape0 rows length
         np_full repeat].
    repeat split.
Qed.

(** ** Fuel

    The loops without a bound are run with fuel.  A result does not depend on
    it: more fuel gives the same result. *)

Section Fuel.

Context (W : World).

Lemma propose_loop_fuel ps obs_data eps weights std (fuel : nat) :
  forall dist u g n r,
    propose_loop W ps obs_data eps weights std fuel dist u g n = Ok r ->
    propose_loop W ps obs_data eps weights std (S fuel) dist u g n = Ok r.
Proof.
  induction fuel as [|fuel IH]; intros dist u g n r H.
  - cbn [propose_loop] in *. destruct (xgtb dist eps); [discriminate | exact H].
  - cbn [propose_loop] in H.
    change (propose_loop W ps obs_data eps weights std (S (S fuel)) dist u g n)
      with (if xgtb dist eps
            then do (new_p', _, dist', g') <- propose W ps obs_data weights std g;
                 propose_loop W ps obs_data eps weights std (S fuel)
                              dist' new_p' g' (S n)
            else Ok (u, g, n)).
    destruct (xgtb dist eps); [|exact H].
    bind_inv H. destruct a as [[[p data] d] g1]. rewrite Hm. cbn [bind].
    apply IH. exact H.
Qed.

Lemma fill_slots_fuel ps log_weights obs_data eps weights std (fuel : nat)
  (slots : list nat) :
  forall st st',
    fill_slots W ps log_weights obs_data eps weights std fuel slots st = Ok st' ->
    fill_slots W ps log_weights obs_data eps weights std (S fuel) slots st
    = Ok st'.
Proof.
  induction slots as [|i slots IH]; intros st st' H; cbn [fill_slots] in *;
    [exact H|].
  bind_inv H. rename a into st1.
  assert (Hslot : fill_slot W ps log_weights obs_data eps weights std
                            (S fuel) i st = Ok st1).
  { unfold fill_slot in *. bind_inv Hm. destruct a as [[p g1] n1].
    rewrite (propose_loop_fuel _ _ _ _ _ _ _ _ _ _ _ Hm0). exact Hm. }
  rewrite Hslot. cbn [bind]. apply IH. exact H.
Qed.

Lemma sample_next_population_fuel (fuel : nat) ps log_weights obs_data eps g r :
  sample_next_population W fuel ps log_weights obs_data eps g = Ok r ->
  sample_next_population W (S fuel) ps log_weights obs_data eps g = Ok r.
Proof.
  unfold sample_next_population. intros H.
  bind_inv H. rewrite Hm. cbn [bind]. bind_inv H.
  rewrite (fill_slots_fuel _ _ _ _ _ _ _ _ _ _ Hm0). exact H.
Qed.

Lemma run_loop_fuel obs_data eps_decay n_particles n_sims_budget ess_min
  (fuel : nat) :
  forall ps lw eps n_sims g h r,
    run_loop W obs_data eps_decay n_particles n_sims_budget ess_min
             fuel ps lw eps n_sims g h = Ok r ->
    run_loop W obs_data eps_decay n_particles n_sims_budget ess_min
             (S fuel) ps lw eps n_sims g h = Ok r.
Proof.
  induction fuel as [|fuel IH]; intros ps lw eps n_sims g h r H.
  - cbn [run_loop] in *.
    destruct (n_sims <? n_sims_budget); [discriminate | exact H].
  - remember (S fuel) as fuel1 eqn:Hfuel1.
    cbn [run_loop]. rewrite Hfuel1 in H. cbn [run_loop] in H.
    destruct (n_sims <? n_sims_budget); [|exact H].
    destruct (sample_next_population W fuel ps lw obs_data (xmul eps eps_decay) g)
      as [[[[ps1 lw1] n_new] g1]| |] eqn:Hnext; try discriminate.
    rewrite Hfuel1, (sample_next_population_fuel _ _ _ _ _ _ _ Hnext).
    bind_inv H. destruct a as [[ps2 lw2] g2]. rewrite Hm. cbn [bind].
    destruct (n_sims_budget <=? n_sims + n_new); [exact H|].
    rewrite <- Hfuel1. apply IH. exact H.
Qed.

Lemma SMC_run_fuel obs_data eps_decay n_particles n_sims_budget ess_min
  (fuel n_initial_round : nat) (g : rng W) r :
  SMC_run W obs_data eps_decay n_particles n_sims_budget ess_min fuel
          n_initial_round g = Ok r ->
  SMC_run W obs_data eps_decay n_particles n_sims_budget ess_min (S fuel)
          n_initial_round g = Ok r.
Proof.
  unfold SMC_run. intros H. bind_inv H.
  destruct a as [[[ps n_sims] eps_init] g1]. rewrite Hm. cbn [bind].
  apply run_loop_fuel. exact H.
Qed.

(** [Rejection.run] returns as soon as enough of the draws are accepted. *)
Lemma rejection_loop_terminates (obs_data : option vec) (eps : xfloat)
  (n_samples : nat) (info : bool) (k : nat) :
  forall st g,
    n_samples <= rj_n_accepted st
                 + length (filter (within eps) (draws W k obs_data g)) ->
    exists r, rejection_loop W k obs_data eps n_samples info st g = Ok r.
Proof.
  induction k as [|k IH]; intros st g Hk; cbn [rejection_loop draws] in *.
  - cbn [filter length] in Hk.
    destruct (rj_n_accepted st <? n_samples) eqn:Hlt; [|eauto].
    apply Nat.ltb_lt in Hlt. lia.
  - destruct (rj_n_accepted st <? n_samples) eqn:Hlt; [|eauto].
    unfold rejection_step.
    destruct (draw W obs_data g) as [[[p data] d] g1].
    apply IH. cbn [filter rj_n_accepted] in *.
    change (within eps (p, d)) with (xltb d eps) in Hk.
    destruct (xltb d eps); cbn [length] in *; lia.
Qed.

End Fuel.

(** ** Runs in the deterministic world *)

Lemma xltb_NInf_r (x : xfloat) : xltb x NInf = false.
Proof. destruct x; reflexivity. Qed.

Section StubRuns.

Local Open Scope R_scope.

Lemma calc_dist_1d (a b : R) :
  calc_dist (Some [Fin a]) (Some [Fin b]) = Fin (Rabs (a - b)).
Proof.
  unfold calc_dist. cbn [zip_with xsub xopp xadd xmul xsum fold_right xsqrt].
  rewrite Rltb_false.
  - f_equal. replace ((a + - b) * (a + - b) + 0) with (Rsqr (a - b))
      by (unfold Rsqr; ring).
    apply sqrt_Rsqr_abs.
  - pose proof (Rle_0_sqr (a + - b)) as H. unfold Rsqr in H. lra.
Qed.

Lemma sqrt2_neq_0 : sqrt 2 <> 0.
Proof. pose proof (sqrt_lt_R0 2). lra. Qed.

Lemma log_ess_min_half : log_ess_min (Fin (1 / 2)) = Fin (- ln 2).
Proof.
  unfold log_ess_min. cbn [xlog]. rewrite Rltb_true by lra.
  f_equal. replace (1 / 2) with (/ 2) by lra. apply ln_Rinv. lra.
Qed.

(** A population of two particles with normalized weights is never judged
    degenerate at [ess_min = 1/2]. *)
Lemma no_resampling (v : vec) :
  length v = 2%nat ->
  logsumexp v = Fin 0 \/ In NaN v ->
  xltb (log_ess_of v (log_n_particles 2)) (log_ess_min (Fin (1 / 2))) = false.
Proof.
  intros Hlen [Hz | Hnan].
  - destruct (log_ess_at_least_one v Hz) as (r & Hr & Hle).
    rewrite Hlen in Hr, Hle. rewrite Hr, log_ess_min_half. cbn [xltb].
    apply Rltb_false. replace (INR 2) with 2 in Hle by (cbn [INR]; lra). lra.
  - rewrite log_ess_NaN by exact Hnan. reflexivity.
Qed.

Variables (gens : nat -> R) (lo z : R).

Let W : World := stub gens lo z never_fails.

Lemma stub_draw (g : nat) :
  draw W obs_one g
  = ([Fin (gens g)], Some [Fin (gens g * gens g)],
     Fin (Rabs (gens g * gens g - 1)), S g).
Proof.
  unfold draw, W, obs_one. cbn [prior_gen sim_model stub stub_prior_gen
    stub_sim_model never_fails map xmul].
  rewrite calc_dist_1d. reflexivity.
Qed.

(** A population of two particles [a] and [b] that are [2] apart, and normal
    draws that move [a] to [-1]. *)
Variables (a b : R).

Let pop : array2 := mkArray2 1 [[Fin a]; [Fin b]].

Hypothesis spread : (a - b) * (a - b) = 4.
Hypothesis lands : a + sqrt 2 * z = -1.

Lemma stub_cov : population_cov pop = [[Fin 2]].
Proof.
  unfold population_cov, np_mean0, column, shape0, pop.
  cbn [rows shape1 seq map length nth zip_with xmul xsum fold_right xadd INR].
  unfold xdiv. rewrite !Reqb_false by lra.
  cbn [nth xmul xsub xopp xadd xsum fold_right].
  do 3 f_equal.
  replace 2 with ((a - b) * (a - b) / 2) at 2 by (rewrite spread; lra).
  field.
Qed.

Lemma stub_std : cholesky W (population_cov pop) = Ok [[Fin (sqrt 2)]].
Proof.
  rewrite stub_cov. unfold W. cbn [cholesky stub stub_cholesky].
  rewrite Rltb_true by lra. reflexivity.
Qed.

(** Every proposal is [-1], with data [1] at distance [0]. *)
Lemma stub_propose (weights : vec) (g : nat) :
  propose W pop obs_one weights [[Fin (sqrt 2)]] g
  = Ok ([Fin (-1)], Some [Fin 1], Fin 0, g).
Proof.
  unfold propose, W, pop.
  cbn [discrete_sample stub rows get nth_error bind shape1 rng_randn
       rng_normal np_dot_mv np_dot length Nat.eqb zip_with xmul xsum
       fold_right xadd broadcast2 assign_row sim_model stub_sim_model
       never_fails map].
  replace (a + (sqrt 2 * z + 0)) with (-1) by lra.
  unfold obs_one. rewrite calc_dist_1d.
  replace (-1 * -1) with 1 by ring.
  replace (1 - 1) with 0 by ring. rewrite Rabs_R0. reflexivity.
Qed.

Lemma stub_nth_proposal (weights : vec) (k : nat) (g : nat) :
  nth_proposal W pop obs_one weights [[Fin (sqrt 2)]] k g
  = Ok ([Fin (-1)], Some [Fin 1], Fin 0, g).
Proof.
  induction k as [|k IH]; cbn [nth_proposal]; rewrite stub_propose;
    [reflexivity | exact IH].
Qed.

Variable e : R.
Hypothesis e_nonneg : 0 <= e.

Lemma stub_propose_loop (weights : vec) (fuel : nat) (u : vec) (g n : nat) :
  propose_loop W pop obs_one (Fin e) weights [[Fin (sqrt 2)]] (S fuel) PInf u g n
  = Ok ([Fin (-1)], g, S n).
Proof.
  cbn [propose_loop xgtb xltb]. rewrite stub_propose. cbn [bind].
  destruct fuel; cbn [propose_loop xgtb xltb]; rewrite Rltb_false by lra;
    reflexivity.
Qed.

Lemma stub_log_kernel :
  exists k0 k1, log_kernel W pop [[Fin (sqrt 2)]] [Fin (-1)] = [Fin k0; Fin k1].
Proof.
  unfold log_kernel, W, pop.
  cbn [rows map zip_with xsub xopp xadd solve_triangular stub
       stub_solve_triangular].
  unfold xdiv. rewrite !Reqb_false by exact sqrt2_neq_0.
  cbn [map xmul xsum fold_right xadd]. eauto.
Qed.

Variable l : R.

Lemma stub_mixture :
  exists m,
    (do mixture <- broadcast2 xadd [Fin l; Fin l]
                     (log_kernel W pop [[Fin (sqrt 2)]] [Fin (-1)]);
     Ok (logsumexp mixture)) = Ok (Fin m).
Proof.
  destruct stub_log_kernel as (k0 & k1 & ->).
  cbn [broadcast2 length Nat.eqb zip_with xadd bind].
  eexists. f_equal. apply logsumexp_proper; [reflexivity|].
  cbn. pose proof (exp_pos (l + k0)). pose proof (exp_pos (l + k1)). lra.
Qed.

Lemma stub_fill_slot :
  exists m, forall weights (fuel i : nat) nps nlw (n g : nat),
    fill_slot W pop [Fin l; Fin l] obs_one (Fin e) weights [[Fin (sqrt 2)]]
              (S fuel) i (mkNext W nps nlw n g)
    = (do nlw' <- set nlw i (xsub (stub_prior_eval lo [Fin (-1)]) (Fin m));
       Ok (mkNext W (nps ++ [[Fin (-1)]]) nlw' (S n) g)).
Proof.
  destruct stub_mixture as (m & Hm). exists m. intros weights fuel i nps nlw n g.
  apply bind_Ok in Hm. destruct Hm as (mix & Hmix & Hm). injection Hm as Hm.
  unfold fill_slot. cbn [nx_rng nx_n_sims nx_new_ps nx_new_log_weights].
  rewrite stub_propose_loop. cbn [bind]. rewrite Hmix. cbn [bind].
  rewrite Hm. reflexivity.
Qed.

(** The next population: two simulations, both particles at [-1]. *)
Lemma stub_next_population :
  exists m, forall (fuel g : nat),
    sample_next_population W (S fuel) pop [Fin l; Fin l] obs_one (Fin e) g
    = Ok (mkArray2 1 [[Fin (-1)]; [Fin (-1)]],
          normalize [xsub (stub_prior_eval lo [Fin (-1)]) (Fin m);
                     xsub (stub_prior_eval lo [Fin (-1)]) (Fin m)],
          2%nat, g).
Proof.
  destruct stub_fill_slot as (m & Hslot). exists m. intros fuel g.
  unfold sample_next_population. rewrite stub_std. cbn [bind].
  unfold shape0, np_empty, pop at 2 3.
  cbn [rows length seq fill_slots map shape1].
  rewrite Hslot. cbn [set bind]. rewrite Hslot. cbn [set bind app].
  reflexivity.
Qed.

End StubRuns.

Section ConcreteRuns.

Local Open Scope R_scope.

(** One iteration of [SMC.run] in the deterministic world: two particles, a
    budget of three simulations, [ess_min = 1/2]. *)
Lemma stub_SMC_run (gens : nat -> R) (lo z a b e0 : R) :
  (a - b) * (a - b) = 4 ->
  a + sqrt 2 * z = -1 ->
  0 <= e0 ->
  sample_initial_population (stub gens lo z never_fails) obs_one 2 2 0%nat
  = Ok (mkArray2 1 [[Fin a]; [Fin b]], 2%nat, Fin e0, 2%nat) ->
  exists m,
    let lw0 := [Fin (- ln (INR 2)); Fin (- ln (INR 2))] in
    let new_lw := normalize [xsub (stub_prior_eval lo [Fin (-1)]) (Fin m);
                             xsub (stub_prior_eval lo [Fin (-1)]) (Fin m)] in
    SMC_run (stub gens lo z never_fails) obs_one (Fin (1 / 2)) 2 3
            (Fin (1 / 2)) 2 2 0%nat
    = Ok (mkHistory
            [mkArray2 1 [[Fin a]; [Fin b]]; mkArray2 1 [[Fin (-1)]; [Fin (-1)]]]
            [lw0; new_lw]
            [Fin e0; Fin (e0 * (1 / 2))]
            [Fin 0; log_ess_of new_lw (log_n_particles 2)]
            [2%nat; 4%nat],
          2%nat).
Proof.
  intros Hspread Hlands He0 Hinit.
  assert (He : 0 <= e0 * (1 / 2)) by lra.
  destruct (stub_next_population gens lo z a b Hspread Hlands _ He
              (- ln (INR 2))) as (m & Hnext).
  exists m. cbn zeta.
  unfold SMC_run. rewrite Hinit. cbn [bind].
  rewrite log_n_particles_pos by lia.
  cbn [xopp np_full repeat run_loop Nat.ltb Nat.leb xmul].
  rewrite Hnext.
  rewrite no_resampling;
    [| apply normalize_length | apply normalize_cases; discriminate].
  cbn [bind Nat.add Nat.leb record app
       all_ps all_log_weights all_eps all_log_ess all_n_sims].
  rewrite log_n_particles_pos by lia.
  reflexivity.
Qed.

Lemma mirror_initial :
  sample_initial_population world_mirror obs_one 2 2 0%nat
  = Ok (mkArray2 1 [[Fin (-1)]; [Fin 1]], 2%nat, Fin 0, 2%nat).
Proof.
  unfold sample_initial_population, world_mirror. cbn [initial_round].
  rewrite !stub_draw. cbn [gens_mirror Nat.ltb Nat.leb np_max fold_left bind].
  replace (-1 * -1 - 1) with 0 by ring. replace (1 * 1 - 1) with 0 by ring.
  rewrite Rabs_R0. unfold xmax. cbn [isnan orb]. rewrite xltb_irrefl.
  reflexivity.
Qed.

Lemma outside_initial :
  sample_initial_population world_outside obs_one 2 2 0%nat
  = Ok (mkArray2 1 [[Fin 1]; [Fin 3]], 2%nat, Fin 8, 2%nat).
Proof.
  unfold sample_initial_population, world_outside. cbn [initial_round].
  rewrite !stub_draw. cbn [gens_odd Nat.ltb Nat.leb np_max fold_left bind].
  replace (1 * 1 - 1) with 0 by ring. replace (3 * 3 - 1) with 8 by ring.
  rewrite Rabs_R0, (Rabs_right 8) by lra.
  unfold xmax. cbn [isnan orb xltb]. rewrite Rltb_true by lra.
  reflexivity.
Qed.

Lemma normalize_pair (u : R) :
  exists w, normalize [Fin u; Fin u] = [Fin w; Fin w].
Proof.
  unfold normalize. rewrite logsumexp_proper; [|reflexivity|].
  - cbn [map xsub xopp xadd]. eauto.
  - cbn. pose proof (exp_pos u). lra.
Qed.

Lemma normalize_no_weight : normalize [NInf; NInf] = [NaN; NaN].
Proof.
  unfold normalize, logsumexp. cbn [map xexp xsum fold_right xadd xlog].
  rewrite Rltb_false by lra. rewrite Reqb_true by lra. reflexivity.
Qed.

(** The run of [world_mirror]: the initial tolerance is [0], the second
    population costs two more simulations. *)
Lemma mirror_run :
  exists w ess,
    SMC_run world_mirror obs_one (Fin (1 / 2)) 2 3 (Fin (1 / 2)) 2 2 0%nat
    = Ok (mkHistory
            [mkArray2 1 [[Fin (-1)]; [Fin 1]];
             mkArray2 1 [[Fin (-1)]; [Fin (-1)]]]
            [[Fin (- ln (INR 2)); Fin (- ln (INR 2))]; [Fin w; Fin w]]
            [Fin 0; Fin (0 * (1 / 2))]
            [Fin 0; ess]
            [2%nat; 4%nat],
          2%nat).
Proof.
  destruct (stub_SMC_run gens_mirror (-1) 0 (-1) 1 0) as (m & Hrun);
    [lra | lra | lra | exact mirror_initial |].
  cbn zeta in Hrun. unfold world_mirror. rewrite Hrun.
  cbn [stub_prior_eval]. rewrite Rltb_false by lra.
  cbn [xsub xopp xadd].
  destruct (normalize_pair (0 + - m)) as (w & ->). eauto.
Qed.

(** The run of [world_outside]: both new particles lie outside the support of
    the prior, and their log-weights cannot be normalized. *)
Lemma outside_run :
  SMC_run world_outside obs_one (Fin (1 / 2)) 2 3 (Fin (1 / 2)) 2 2 0%nat
  = Ok (mkHistory
          [mkArray2 1 [[Fin 1]; [Fin 3]]; mkArray2 1 [[Fin (-1)]; [Fin (-1)]]]
          [[Fin (- ln (INR 2)); Fin (- ln (INR 2))]; [NaN; NaN]]
          [Fin 8; Fin (8 * (1 / 2))]
          [Fin 0; NaN]
          [2%nat; 4%nat],
        2%nat).
Proof.
  destruct (stub_SMC_run gens_odd 0 (- sqrt 2) 1 3 8) as (m & Hrun);
    [lra | | lra | exact outside_initial |].
  { replace (sqrt 2 * - sqrt 2) with (- (sqrt 2 * sqrt 2)) by ring.
    rewrite sqrt_sqrt by lra. lra. }
  cbn zeta in Hrun. unfold world_outside. rewrite Hrun.
  cbn [stub_prior_eval]. rewrite Rltb_true by lra.
  cbn [xsub xopp xadd]. rewrite normalize_no_weight.
  rewrite log_ess_NaN by (left; reflexivity). reflexivity.
Qed.

End ConcreteRuns.

(** ** Concrete runs behind the claims *)

Section ClaimRuns.

Local Open Scope R_scope.

Lemma mirror_distance (g : nat) :
  Rabs (gens_mirror g * gens_mirror g - 1) = 0.
Proof.
  destruct g; cbn [gens_mirror];
    [replace (-1 * -1 - 1) with 0 by ring | replace (1 * 1 - 1) with 0 by ring];
    apply Rabs_R0.
Qed.

Lemma mirror_rejection_step (info : bool) (st : rejection_state) (g : nat) :
  rejection_step world_mirror obs_one (Fin 1) info st g
  = (mkRejection (rj_ps st ++ [[Fin (gens_mirror g)]])
                 (if info then rj_dist st ++ [Fin 0] else rj_dist st)
                 (S (rj_n_sims st)) (S (rj_n_accepted st)),
     S g).
Proof.
  unfold rejection_step, world_mirror. rewrite stub_draw, mirror_distance.
  cbn [xltb]. rewrite Rltb_true by lra. reflexivity.
Qed.

(** Two samples within distance [1] of the observation, in two draws. *)
Lemma mirror_rejection_run :
  Rejection_run world_mirror 2 obs_one (Fin 1) 2 true 0%nat
  = Ok (RejectionInfo [[Fin (-1)]; [Fin 1]] [Fin 0; Fin 0] 2, 2%nat).
Proof.
  unfold Rejection_run.
  cbn [rejection_loop rj_n_accepted Nat.ltb Nat.leb].
  rewrite mirror_rejection_step.
  cbn [rejection_loop rj_n_accepted Nat.ltb Nat.leb].
  rewrite mirror_rejection_step.
  reflexivity.
Qed.

End ClaimRuns.

Lemma Rejection_run_accepted_witness :
  exists n_sims,
    let tr := draws world_mirror n_sims obs_one 0 in
    let accepted := filter (within (Fin 1)) tr in
    RejectionInfo [[Fin (-1)%R]; [Fin 1]] [Fin 0; Fin 0] 2
    = RejectionInfo (map fst accepted) (map snd tr) n_sims /\
    length (map fst accepted) = 2 /\
    Forall (fun d => xltb (snd d) (Fin 1) = true) accepted /\
    2 <= n_sims.
Proof.
  exact (Rejection_run_accepted world_mirror 2 obs_one (Fin 1) 2 true 0 2 _
           mirror_rejection_run).
Defined.

(** An exception raised by [sample_next_population] is not handled as a
    budget signal: it surfaces as a NameError. *)
Lemma run_loop_raise (W : World) obs_data eps_decay n_particles n_sims_budget
  ess_min fuel ps lw eps n_sims (g : rng W) h e :
  n_sims < n_sims_budget ->
  sample_next_population W fuel ps lw obs_data (xmul eps eps_decay) g
  = Raise e ->
  run_loop W obs_data eps_decay n_particles n_sims_budget ess_min
           (S fuel) ps lw eps n_sims g h = Raise NameError.
Proof.
  intros Hlt Hraise.
  cbn [run_loop]. apply Nat.ltb_lt in Hlt. rewrite Hlt, Hraise. reflexivity.
Qed.

(** C1, at a budget of three simulations: [sample_next_population] takes no
    budget and raises no signal, the second population is completed and
    recorded, and the run ends with four simulations. *)
Theorem SMC_run_exceeds_budget :
  exists h g',
    SMC_run world_mirror obs_one (Fin (1 / 2)) 2 3 (Fin (1 / 2)) 2 2 0 = Ok (h, g') /\
    all_n_sims h = [2; 4] /\ length (all_ps h) = 2.
Proof.
  destruct mirror_run as (w & ess & H).
  eexists _, _. split; [exact H|]. split; reflexivity.
Qed.

Lemma sample_initial_population_selects_witness :
  exists pop eps_init g',
    sample_initial_population world_mirror obs_one 2 3 0
    = Ok (pop, 3, eps_init, g') /\ shape0 pop = 2.
Proof.
  pose proof (sample_initial_population_selects world_mirror obs_one 2 3 0)
    as Hsel.
  destruct (initial_round world_mirror 3 obs_one 0) as [[ps ds] g'].
  destruct Hsel as [Hsel _].
  destruct (Hsel ltac:(lia) 2 ltac:(vm_compute; reflexivity) ltac:(lia))
    as (sortidx & Hperm & _ & Heq).
  eexists _, _, _. split; [exact Heq|].
  unfold shape0. cbn [rows]. rewrite length_map, length_firstn.
  rewrite (Permutation_length Hperm), length_seq. reflexivity.
Defined.

(** C6, at a proposal whose distance equals [eps]: the particles of the new
    population were placed although no proposal at all has a distance
    strictly below [eps = 0]. *)
Lemma sample_next_population_at_eps :
  exists new_ps new_lw n_sims g',
    sample_next_population world_mirror 1
      (mkArray2 1 [[Fin (-1)]; [Fin 1]]) [Fin 0; Fin 0] obs_one (Fin 0) 0
    = Ok (new_ps, new_lw, n_sims, g') /\
    rows new_ps = [[Fin (-1)]; [Fin (-1)]] /\
    forall std,
      cholesky world_mirror (population_cov (mkArray2 1 [[Fin (-1)]; [Fin 1]]))
      = Ok std ->
      ~ Forall (fun p => exists g0 g1,
                  first_passing world_mirror (mkArray2 1 [[Fin (-1)]; [Fin 1]])
                    obs_one (map xexp [Fin 0; Fin 0]) std
                    (fun d => xltb d (Fin 0)) g0 p g1)
               (rows new_ps).
Proof.
  assert (Hspread : ((-1 - 1) * (-1 - 1) = 4)%R) by lra.
  assert (Hlands : (-1 + sqrt 2 * 0 = -1)%R) by lra.
  destruct (stub_next_population gens_mirror (-1) 0 (-1) 1 Hspread Hlands
              0 (Rle_refl 0) 0) as (m & Hnext).
  eexists _, _, _, _. split; [apply Hnext|]. split; [reflexivity|].
  intros std Hstd.
  unfold world_mirror in Hstd.
  rewrite (stub_std gens_mirror (-1) 0 (-1) 1 Hspread) in Hstd.
  injection Hstd as <-.
  cbn [rows]. intros Hall. inversion Hall as [|? ? Hfirst _]; subst.
  destruct Hfirst as (g0 & g1 & k & data & d & Hk & Hd & _).
  unfold world_mirror in Hk.
  rewrite (stub_nth_proposal gens_mirror (-1) 0 (-1) 1 Hlands) in Hk.
  injection Hk as _ <- _. rewrite xltb_irrefl in Hd. discriminate.
Qed.

Lemma sample_next_population_first_witness :
  exists new_ps new_lw n_sims g',
    sample_next_population world_mirror 1
      (mkArray2 1 [[Fin (-1)]; [Fin 1]]) [Fin 0; Fin 0] obs_one (Fin 0) 0
    = Ok (new_ps, new_lw, n_sims, g') /\
    exists std,
      cholesky world_mirror (population_cov (mkArray2 1 [[Fin (-1)]; [Fin 1]]))
      = Ok std /\
      shape0 new_ps = 2 /\
      slots_filled world_mirror (mkArray2 1 [[Fin (-1)]; [Fin 1]])
                   obs_one (map xexp [Fin 0; Fin 0]) std (not_above (Fin 0))
                   0 (rows new_ps) g'.
Proof.
  assert (Hspread : ((-1 - 1) * (-1 - 1) = 4)%R) by lra.
  assert (Hlands : (-1 + sqrt 2 * 0 = -1)%R) by lra.
  destruct (stub_next_population gens_mirror (-1) 0 (-1) 1 Hspread Hlands
              0 (Rle_refl 0) 0) as (m & Hnext).
  eexists _, _, _, _. split; [apply (Hnext 0 0)|].
  exact (sample_next_population_first world_mirror 1 _ _ obs_one (Fin 0) 0 _ _
           _ _ (Hnext 0 0) eq_refl).
Defined.

(** In the same run the recorded [log_ess] of the NaN weights is NaN, which
    is not [<= 0]. *)
Lemma SMC_run_log_ess_NaN :
  exists h g',
    SMC_run world_outside obs_one (Fin (1 / 2)) 2 3 (Fin (1 / 2)) 2 2 0 = Ok (h, g') /\
    ~ Forall (fun e => xleb e (Fin 0) = true) (all_log_ess h).
Proof.
  eexists _, _. split; [exact outside_run|].
  cbn [all_log_ess]. intros H.
  inversion H as [|? ? _ H']; subst. inversion H' as [|? ? Hnan _]; subst.
  discriminate.
Qed.



Lemma SMC_run_first_weights_witness :
  exists h g',
    SMC_run world_mirror obs_one (Fin (1 / 2)) 2 3 (Fin (1 / 2)) 2 2 0 = Ok (h, g') /\
    exists lw0 rest, all_log_weights h = lw0 :: rest /\ length lw0 = 2.
Proof.
  destruct mirror_run as (w & ess & H).
  eexists _, _. split; [exact H|].
  exact (proj1 SMC_run_first_weights world_mirror obs_one (Fin (1 / 2)) 2 3
           (Fin (1 / 2)) 2 2 0 _ _ H).
Defined.

(** ** The distance [calc_dist] *)

Lemma xsub_swap (a b : xfloat) : xsub b a = xopp (xsub a b).
Proof.
  destruct a, b; cbn; try reflexivity. f_equal. ring.
Qed.

Lemma xmul_opp_opp (d : xfloat) : xmul (xopp d) (xopp d) = xmul d d.
Proof. destruct d; cbn; try reflexivity. f_equal. ring. Qed.

Lemma squares_swap (a b : vec) :
  zip_with xmul (zip_with xsub b a) (zip_with xsub b a)
  = zip_with xmul (zip_with xsub a b) (zip_with xsub a b).
Proof.
  revert b. induction a as [|x a IH]; intros [|y b]; try reflexivity.
  cbn [zip_with]. rewrite IH, (xsub_swap x y), xmul_opp_opp. reflexivity.
Qed.

(** X1: [calc_dist] is symmetric: the distance of two datasets does not
    depend on their order, also when one of them is absent. *)
Theorem calc_dist_sym (data_1 data_2 : option vec) :
  calc_dist data_1 data_2 = calc_dist data_2 data_1.
Proof.
  destruct data_1 as [a|], data_2 as [b|]; try reflexivity.
  unfold calc_dist. cbn zeta. rewrite squares_swap. reflexivity.
Qed.

Lemma square_not_negative (d : xfloat) : not_negative (xmul d d).
Proof.
  destruct d; cbn; unfold not_negative; auto.
  right; right. eexists; split; [reflexivity|]. apply Rle_0_sqr.
Qed.

Lemma xadd_not_negative (x y : xfloat) :
  not_negative x -> not_negative y -> not_negative (xadd x y).
Proof.
  unfold not_negative.
  intros [-> | [-> | (a & -> & Ha)]] [-> | [-> | (b & -> & Hb)]]; cbn; auto.
  right; right. eexists; split; [reflexivity | lra].
Qed.

Lemma xsum_squares_not_negative (d : vec) :
  not_negative (xsum (zip_with xmul d d)).
Proof.
  induction d as [|x d IH].
  - right; right. exists 0%R. split; [reflexivity | lra].
  - cbn [zip_with]. apply xadd_not_negative; [apply square_not_negative | exact IH].
Qed.

Lemma xsqrt_not_negative (x : xfloat) : not_negative x -> not_negative (xsqrt x).
Proof.
  intros [-> | [-> | (r & -> & Hr)]]; cbn; unfold not_negative; auto.
  rewrite Rltb_false by exact Hr.
  right; right. eexists; split; [reflexivity | apply sqrt_pos].
Qed.

(** X2: the distance that [calc_dist] returns is never negative: it is NaN,
    [+inf], or a real number that is at least zero. *)
Theorem calc_dist_not_negative (data_1 data_2 : option vec) :
  not_negative (calc_dist data_1 data_2).
Proof.
  destruct data_1 as [a|], data_2 as [b|]; try (right; left; reflexivity).
  unfold calc_dist. cbn zeta.
  apply xsqrt_not_negative, xsum_squares_not_negative.
Qed.

Lemma not_negative_below (x eps : xfloat) :
  not_negative x -> not_positive eps -> xltb x eps = false.
Proof.
  intros [-> | [-> | (r & -> & Hr)]] [-> | [-> | (e & -> & He)]]; cbn;
    try reflexivity.
  apply Rltb_false. lra.
Qed.

(** No distance is below a tolerance that is not positive. *)
Lemma calc_dist_not_below (data_1 data_2 : option vec) (eps : xfloat) :
  not_positive eps -> xltb (calc_dist data_1 data_2) eps = false.
Proof.
  intros Heps. apply not_negative_below; [|exact Heps].
  destruct data_1 as [a|], data_2 as [b|]; try (right; left; reflexivity).
  unfold calc_dist. cbn zeta.
  apply xsqrt_not_negative, xsum_squares_not_negative.
Qed.

(** X3: a dataset of finite values is at distance zero from itself. *)
Theorem calc_dist_self (l : list R) :
  calc_dist (Some (map Fin l)) (Some (map Fin l)) = Fin 0.
Proof.
  unfold calc_dist. cbn zeta.
  assert (H : xsum (zip_with xmul (zip_with xsub (map Fin l) (map Fin l))
                            (zip_with xsub (map Fin l) (map Fin l))) = Fin 0).
  { induction l as [|x l IH]; [reflexivity|].
    cbn [map zip_with]. unfold xsum in *. cbn [fold_right]. rewrite IH.
    cbn. f_equal. ring. }
  rewrite H. cbn. rewrite Rltb_false by lra. f_equal. apply sqrt_0.
Qed.

(** ** More on [Rejection.run] *)

Section RejectionMore.

Context (W : World).
Variables (obs_data : option vec) (eps : xfloat) (info : bool).

Lemma draw_dist g p data d g' :
  draw W obs_data g = (p, data, d, g') -> d = calc_dist data obs_data.
Proof.
  unfold draw. destruct (prior_gen W g) as [q g1].
  destruct (sim_model W q g1) as [data' g2].
  intros [= _ <- <- _]. reflexivity.
Qed.

(** The draw that ends the loop is an accepted one: with one draw fewer the
    run would not have had its samples. *)
Lemma rejection_loop_last (n_samples fuel : nat) :
  forall st g st' g',
    rejection_loop W fuel obs_data eps n_samples info st g = Ok (st', g') ->
    rj_n_accepted st < n_samples ->
    exists k,
      rj_n_sims st' = rj_n_sims st + S k /\
      rj_n_accepted st
      + length (filter (within eps) (draws W k obs_data g)) < n_samples.
Proof.
  induction fuel as [|fuel IH]; intros st g st' g' H Hlt;
    cbn [rejection_loop] in H;
    (destruct (rj_n_accepted st <? n_samples) eqn:Hb;
     [|apply Nat.ltb_ge in Hb; lia]); [discriminate|].
  destruct (rejection_step W obs_data eps info st g) as [st1 g1] eqn:Hstep.
  unfold rejection_step in Hstep.
  destruct (draw W obs_data g) as [[[p data] d] g2] eqn:Hd.
  injection Hstep as <- <-.
  set (acc := if xltb d eps then S (rj_n_accepted st) else rj_n_accepted st)
    in *.
  assert (Hacc1 : acc = rj_n_accepted st
                        + length (filter (within eps) [(p, d)])).
  { unfold acc. cbn [filter]. change (within eps (p, d)) with (xltb d eps).
    destruct (xltb d eps); cbn [length]; lia. }
  destruct (Nat.lt_ge_cases acc n_samples) as [Hmore | Hdone].
  - apply IH in H; [|exact Hmore].
    destruct H as (k & Hsims & Hacc). cbn [rj_n_sims rj_n_accepted] in *.
    exists (S k). cbn [draws]. rewrite Hd.
    change ((p, d) :: draws W k obs_data g2)
      with ([(p, d)] ++ draws W k obs_data g2).
    rewrite filter_app, length_app. split; lia.
  - destruct fuel; cbn [rejection_loop rj_n_accepted] in H;
      (destruct (acc <? n_samples) eqn:Hb2;
       [apply Nat.ltb_lt in Hb2; lia|]);
      injection H as <- <-; exists 0; cbn; split; lia.
Qed.

Lemma rejection_loop_stuck (n_samples fuel : nat) :
  not_positive eps ->
  forall st g,
    rj_n_accepted st < n_samples ->
    rejection_loop W fuel obs_data eps n_samples info st g = OutOfFuel.
Proof.
  intros Heps. induction fuel as [|fuel IH]; intros st g Hlt;
    cbn [rejection_loop]; apply Nat.ltb_lt in Hlt as Hb; rewrite Hb;
    [reflexivity|].
  unfold rejection_step.
  destruct (draw W obs_data g) as [[[p data] d] g1] eqn:Hd.
  apply draw_dist in Hd. subst d.
  rewrite (calc_dist_not_below _ _ eps Heps).
  apply IH. exact Hlt.
Qed.

Lemma rejection_loop_more_fuel (n_samples fuel extra : nat) st g r :
  rejection_loop W fuel obs_data eps n_samples info st g = Ok r ->
  rejection_loop W (extra + fuel) obs_data eps n_samples info st g = Ok r.
Proof.
  intros H. induction extra as [|extra IH]; [exact H|].
  apply rejection_loop_fuel. exact IH.
Qed.

(** A loop that has reached [n] accepted samples goes on to [n + m]. *)
Lemma rejection_loop_extend (n m : nat) (f1 : nat) :
  forall st g st1 g1 f2 r,
    rejection_loop W f1 obs_data eps n info st g = Ok (st1, g1) ->
    rejection_loop W f2 obs_data eps (n + m) info st1 g1 = Ok r ->
    rejection_loop W (f1 + f2) obs_data eps (n + m) info st g = Ok r.
Proof.
  induction f1 as [|f1 IH]; intros st g st1 g1 f2 r H1 H2;
    cbn [rejection_loop] in H1.
  - destruct (rj_n_accepted st <? n); [discriminate|].
    injection H1 as <- <-. exact H2.
  - destruct (rj_n_accepted st <? n) eqn:Hb.
    + cbn [Nat.add rejection_loop].
      apply Nat.ltb_lt in Hb.
      assert (Hb' : (rj_n_accepted st <? n + m) = true)
        by (apply Nat.ltb_lt; lia).
      rewrite Hb'.
      destruct (rejection_step W obs_data eps info st g) as [st' g'].
      eapply IH; eassumption.
    + injection H1 as <- <-.
      apply (rejection_loop_more_fuel (n + m) f2 (S f1)). exact H2.
Qed.

(** A loop started from samples already collected. *)
Lemma rejection_loop_shift (base : rejection_state) (m fuel : nat) :
  forall st g st2 g2,
    rejection_loop W fuel obs_data eps m info st g = Ok (st2, g2) ->
    rejection_loop W fuel obs_data eps (rj_n_accepted base + m) info
                   (shift base st) g
    = Ok (shift base st2, g2).
Proof.
  induction fuel as [|fuel IH]; intros st g st2 g2 H; cbn [rejection_loop] in *;
    cbn [shift rj_n_accepted];
    replace (rj_n_accepted base + rj_n_accepted st <? rj_n_accepted base + m)
      with (rj_n_accepted st <? m)
      by (destruct (rj_n_accepted st <? m) eqn:E; symmetry;
          [apply Nat.ltb_lt; apply Nat.ltb_lt in E; lia
          |apply Nat.ltb_ge; apply Nat.ltb_ge in E; lia]);
    (destruct (rj_n_accepted st <? m);
     [| injection H as <- <-; reflexivity]); [discriminate|].
  destruct (rejection_step W obs_data eps info st g) as [st1 g1] eqn:Hstep.
  assert (Hs : rejection_step W obs_data eps info (shift base st) g
               = (shift base st1, g1)).
  { unfold rejection_step in *.
    destruct (draw W obs_data g) as [[[p data] d] g'].
    injection Hstep as <- <-. unfold shift. cbn [rj_ps rj_dist rj_n_sims rj_n_accepted].
    f_equal. f_equal.
    - destruct (xltb d eps); [symmetry; apply app_assoc | reflexivity].
    - destruct info; [symmetry; apply app_assoc | reflexivity].
    - lia.
    - destruct (xltb d eps); lia. }
  fold (shift base st) in *. 
  change (mkRejection (rj_ps base ++ rj_ps st) (rj_dist base ++ rj_dist st)
            (rj_n_sims base + rj_n_sims st)
            (rj_n_accepted base + rj_n_accepted st)) with (shift base st).
  rewrite Hs. apply IH. exact H.
Qed.

End RejectionMore.

(** X4: [Rejection.run] stops at the draw that completes the sample: for
    [n_samples >= 1] the number of simulations it reports is one more than a
    number of draws among which fewer than [n_samples] were accepted, so the
    last draw is an accepted one and no shorter run has [n_samples]. *)
Theorem Rejection_run_last_draw (W : World) (fuel : nat) (obs_data : option vec)
  (eps : xfloat) (n_samples : nat) (g g' : rng W) ps dist n_sims :
  Rejection_run W fuel obs_data eps n_samples true g
  = Ok (RejectionInfo ps dist n_sims, g') ->
  1 <= n_samples ->
  exists k,
    n_sims = S k /\
    length (filter (within eps) (draws W k obs_data g)) < n_samples.
Proof.
  unfold Rejection_run. intros H Hn. apply bind_Ok in H.
  destruct H as ([st g1] & Hloop & H). injection H as <- <- <- <-.
  apply rejection_loop_last in Hloop; [|cbn; lia].
  destruct Hloop as (k & Hsims & Hacc). cbn in Hsims, Hacc. eauto.
Qed.

Lemma Rejection_run_last_draw_witness :
  exists k,
    2 = S k /\
    length (filter (within (Fin 1)) (draws world_mirror k obs_one 0)) < 2.
Proof.
  exact (Rejection_run_last_draw world_mirror 2 obs_one (Fin 1) 2 0 2 _ _ _
           mirror_rejection_run ltac:(lia)).
Defined.

(** X5: with a tolerance that is zero, negative, [-inf] or NaN no draw is
    accepted: for [n_samples >= 1] the loop of [Rejection.run] is still
    running after any number of iterations, and the run never returns. *)
Theorem Rejection_run_not_positive (W : World) (fuel : nat)
  (obs_data : option vec) (eps : xfloat) (n_samples : nat) (info : bool)
  (g : rng W) :
  1 <= n_samples ->
  not_positive eps ->
  Rejection_run W fuel obs_data eps n_samples info g = OutOfFuel.
Proof.
  intros Hn Heps. unfold Rejection_run.
  rewrite rejection_loop_stuck; [reflexivity | exact Heps | cbn; lia].
Qed.

Lemma Rejection_run_not_positive_witness :
  Rejection_run world_mirror 5 obs_one (Fin 0) 1 true 0 = OutOfFuel.
Proof.
  apply Rejection_run_not_positive; [lia|].
  right; right. exists 0%R. split; [reflexivity | lra].
Defined.

(** X6: a run of [Rejection.run] for [n] samples followed by a run for [m]
    samples from the generator the first one left gives what a single run for
    [n + m] samples gives: the samples and distances of the first run followed
    by those of the second, the sum of the two simulation counts, and the
    generator the second run left. *)
Theorem Rejection_run_join (W : World) (f1 f2 : nat) (obs_data : option vec)
  (eps : xfloat) (n m : nat) (info : bool) (g g1 g2 : rng W) r1 r2 :
  Rejection_run W f1 obs_data eps n info g = Ok (r1, g1) ->
  Rejection_run W f2 obs_data eps m info g1 = Ok (r2, g2) ->
  Rejection_run W (f1 + f2) obs_data eps (n + m) info g
  = Ok (rejection_join r1 r2, g2).
Proof.
  unfold Rejection_run. intros H1 H2.
  apply bind_Ok in H1. destruct H1 as ([st1 g1'] & Hl1 & H1).
  injection H1 as <- <-.
  apply bind_Ok in H2. destruct H2 as ([st2 g2'] & Hl2 & H2).
  injection H2 as <- <-.
  pose proof (rejection_loop_trace W obs_data eps n info f1 _ _ _ _ Hl1)
    as (k & _ & _ & _ & _ & Hn).
  cbn [rj_n_accepted] in Hn. specialize (Hn (Nat.le_0_l _)).
  apply (rejection_loop_shift W obs_data eps info st1) in Hl2.
  rewrite Hn in Hl2.
  assert (Hbase : shift st1 (mkRejection [] [] 0 0) = st1).
  { destruct st1. unfold shift. cbn. rewrite !app_nil_r, !Nat.add_0_r.
    reflexivity. }
  rewrite Hbase in Hl2.
  rewrite (rejection_loop_extend W obs_data eps info n m f1 _ _ _ _ _ _ Hl1 Hl2).
  cbn [bind shift rj_ps rj_dist rj_n_sims]. destruct info; reflexivity.
Qed.

Lemma mirror_rejection_run_next :
  Rejection_run world_mirror 1 obs_one (Fin 1) 1 true 2%nat
  = Ok (RejectionInfo [[Fin 1]] [Fin 0] 1, 3%nat).
Proof.
  unfold Rejection_run.
  cbn [rejection_loop rj_n_accepted Nat.ltb Nat.leb].
  rewrite mirror_rejection_step. reflexivity.
Qed.

Lemma Rejection_run_join_witness :
  Rejection_run world_mirror (2 + 1) obs_one (Fin 1) (2 + 1) true 0
  = Ok (rejection_join (RejectionInfo [[Fin (-1)%R]; [Fin 1]] [Fin 0; Fin 0] 2)
                       (RejectionInfo [[Fin 1]] [Fin 0] 1), 3).
Proof.
  exact (Rejection_run_join world_mirror 2 1 obs_one (Fin 1) 2 1 true 0 2 3 _ _
           mirror_rejection_run mirror_rejection_run_next).
Defined.

(** ** More on [MCMC.run] *)

Lemma zip_with_length {A B C : Type} (f : A -> B -> C) (a : list A) :
  forall b, length b = length a -> length (zip_with f a b) = length a.
Proof.
  induction a as [|x a IH]; intros [|y b] H; try discriminate; [reflexivity|].
  cbn [zip_with length]. f_equal. apply IH. now injection H.
Qed.

Section McmcMore.

Context (W : World).
Variables (obs_data : option vec) (eps step : xfloat) (n_dim : nat).

Lemma mcmc_propose_dist self g p data d g' :
  mcmc_propose W obs_data step n_dim self g = (p, data, d, g') ->
  d = calc_dist data obs_data /\
  (length (cur_ps self) = n_dim -> length p = n_dim).
Proof.
  unfold mcmc_propose.
  pose proof (rng_randn_length W n_dim g) as Hz.
  destruct (rng_randn W n_dim g) as [z g1]. cbn [fst] in Hz.
  destruct (sim_model W _ g1) as [data' g2].
  intros [= <- <- <- _]. split; [reflexivity|].
  intros Hc. rewrite zip_with_length; [exact Hc|].
  rewrite length_map. congruence.
Qed.

(** A move either leaves the sampler as it is, or takes it to a proposal
    that passed both tests. *)
Lemma mcmc_move_cases (st : mcmc_state) (g : rng W) :
  let st' := fst (mcmc_move W obs_data eps step n_dim st g) in
  (mc_self st' = mc_self st /\ mc_n_accepted st' = mc_n_accepted st /\
   mc_cur_dist st' = mc_cur_dist st) \/
  (exists p data d g2,
     mcmc_propose W obs_data step n_dim (mc_self st) g = (p, data, d, g2) /\
     mc_self st' = mkMCMC p (prior_eval W p) /\
     mc_n_accepted st' = S (mc_n_accepted st) /\
     xltb d eps = true /\
     xltb (Fin (fst (rng_rand W g2)))
          (xexp (xsub (prior_eval W p) (cur_log_prior (mc_self st)))) = true).
Proof.
  unfold mcmc_move.
  destruct (mcmc_propose W obs_data step n_dim (mc_self st) g)
    as [[[p data] d] g2] eqn:Hp.
  destruct (xltb d eps) eqn:Hd; [|left; repeat split; reflexivity].
  destruct (rng_rand W g2) as [u g3] eqn:Hu.
  destruct (xltb (Fin u) _) eqn:Hacc; [|left; repeat split; reflexivity].
  right. exists p, data, d, g2. rewrite Hu. cbn [fst mc_self mc_n_accepted].
  repeat split; assumption.
Qed.

(** With a tolerance that is not positive the first iteration cannot format
    its distance. *)
Lemma mcmc_step_never (st : mcmc_state) (g : rng W) :
  not_positive eps ->
  mc_cur_dist st = None ->
  mcmc_step W obs_data eps step n_dim st g = Raise TypeError.
Proof.
  intros Heps Hnone. unfold mcmc_step.
  destruct (mcmc_move_cases st g)
    as [(_ & _ & Hd) | (p & data & d & g2 & Hp & _ & _ & Hd & _)].
  - destruct (mcmc_move W obs_data eps step n_dim st g) as [st1 g1].
    cbn [fst] in Hd. rewrite Hd, Hnone. reflexivity.
  - apply mcmc_propose_dist in Hp. destruct Hp as [-> _].
    rewrite (calc_dist_not_below _ _ eps Heps) in Hd. discriminate.
Qed.

End McmcMore.

(** X7: the acceptance rate that [MCMC.run] returns with [info] set is a
    real number between zero and one. *)
Theorem MCMC_run_acc_rate (W : World) self obs_data eps step n_samples
  (g g' : rng W) ps acc_rate self' :
  MCMC_run W self obs_data eps step n_samples true g
  = Ok (McmcInfo ps acc_rate, self', g') ->
  exists r, acc_rate = Fin r /\ (0 <= r <= 1)%R.
Proof.
  intros H. apply MCMC_run_inv in H.
  destruct H as (Hn & st & Hloop & _ & _ & Hr).
  specialize (Hr eq_refl). injection Hr as _ ->.
  pose proof (mcmc_loop_length W obs_data eps step (length (cur_ps self))
                n_samples _ _ _ _ Hloop) as Hlen.
  assert (Hinv : mc_n_accepted st <= length (mc_ps st)).
  { apply (mcmc_loop_invariant W obs_data eps step (length (cur_ps self))
             (fun st => mc_n_accepted st <= length (mc_ps st)))
      with (2 := Hloop); [|cbn; lia].
    intros st0 g0 H0.
    pose proof (mcmc_move_chain W obs_data eps step
                  (length (cur_ps self)) st0 g0) as Hc.
    cbn zeta in Hc. rewrite Hc, length_app. cbn [length].
    destruct (mcmc_move_cases W obs_data eps step
                (length (cur_ps self)) st0 g0)
      as [(_ & -> & _) | (? & ? & ? & ? & _ & _ & -> & _)]; lia. }
  cbn [mc_ps length Nat.add] in Hlen. rewrite Hlen in Hinv.
  eexists; split; [reflexivity|].
  assert (0 < INR n_samples)%R by (apply lt_0_INR; lia).
  assert (0 <= INR (mc_n_accepted st))%R by apply pos_INR.
  assert (INR (mc_n_accepted st) <= INR n_samples)%R by (apply le_INR; exact Hinv).
  split.
  - apply Rmult_le_pos; [assumption|]. left. now apply Rinv_0_lt_compat.
  - apply (Rmult_le_reg_r (INR n_samples)); [assumption|].
    unfold Rdiv. rewrite Rmult_assoc, Rinv_l by lra. lra.
Qed.

Section McmcRuns.

Context (W : World).
Variables (self : MCMC) (obs_data : option vec) (eps step : xfloat).

Let n_dim := length (cur_ps self).
Let start := mkMcmcState self [] 0 None.

Lemma mcmc_loop_state (n : nat) (g g' : rng W) (st : mcmc_state) :
  mcmc_loop W n obs_data eps step n_dim start g = Ok (st, g') ->
  cur_log_prior self = prior_eval W (cur_ps self) ->
  cur_log_prior (mc_self st) = prior_eval W (cur_ps (mc_self st)) /\
  last (mc_ps st) (cur_ps self) = cur_ps (mc_self st).
Proof.
  intros Hloop Hinit.
  apply (mcmc_loop_invariant W obs_data eps step n_dim
           (fun st =>
              cur_log_prior (mc_self st) = prior_eval W (cur_ps (mc_self st)) /\
              last (mc_ps st) (cur_ps self) = cur_ps (mc_self st)))
    with (2 := Hloop); [|split; [exact Hinit | reflexivity]].
  intros st0 g0 [Hlp _].
  pose proof (mcmc_move_chain W obs_data eps step n_dim st0 g0) as Hc.
  cbn zeta in Hc. rewrite Hc, last_last. split; [|reflexivity].
  destruct (mcmc_move_cases W obs_data eps step n_dim st0 g0)
    as [(-> & _) | (p & data & d & g2 & _ & -> & _)]; [exact Hlp | reflexivity].
Qed.

Lemma mcmc_loop_dim (n : nat) (g g' : rng W) (st : mcmc_state) :
  mcmc_loop W n obs_data eps step n_dim start g = Ok (st, g') ->
  length (cur_ps (mc_self st)) = n_dim /\
  Forall (fun p => length p = n_dim) (mc_ps st).
Proof.
  intros Hloop.
  apply (mcmc_loop_invariant W obs_data eps step n_dim
           (fun st =>
              length (cur_ps (mc_self st)) = n_dim /\
              Forall (fun p => length p = n_dim) (mc_ps st)))
    with (2 := Hloop); [|split; [reflexivity | constructor]].
  intros st0 g0 [Hcur Hall].
  pose proof (mcmc_move_chain W obs_data eps step n_dim st0 g0) as Hc.
  cbn zeta in Hc. rewrite Hc.
  assert (Hnew : length (cur_ps (mc_self
                   (fst (mcmc_move W obs_data eps step n_dim st0 g0)))) = n_dim).
  { destruct (mcmc_move_cases W obs_data eps step n_dim st0 g0)
      as [(-> & _) | (p & data & d & g2 & Hp & -> & _)]; [exact Hcur|].
    apply mcmc_propose_dist in Hp. cbn [cur_ps]. apply (proj2 Hp). exact Hcur. }
  split; [exact Hnew|].
  apply Forall_app. split; [exact Hall|]. constructor; [exact Hnew | constructor].
Qed.

Lemma mcmc_loop_support (n : nat) (g g' : rng W) (st : mcmc_state) :
  (forall g0, (0 <= fst (rng_rand W g0))%R) ->
  mcmc_loop W n obs_data eps step n_dim start g = Ok (st, g') ->
  Forall (fun p => p = cur_ps self \/ prior_eval W p <> NInf) (mc_ps st).
Proof.
  intros Hrand Hloop.
  apply (mcmc_loop_invariant W obs_data eps step n_dim
           (fun st =>
              (cur_ps (mc_self st) = cur_ps self \/
               prior_eval W (cur_ps (mc_self st)) <> NInf) /\
              Forall (fun p => p = cur_ps self \/ prior_eval W p <> NInf)
                     (mc_ps st)))
    with (2 := Hloop); [|split; [left; reflexivity | constructor]].
  intros st0 g0 [Hcur Hall].
  pose proof (mcmc_move_chain W obs_data eps step n_dim st0 g0) as Hc.
  cbn zeta in Hc. rewrite Hc.
  assert (Hnew : cur_ps (mc_self (fst (mcmc_move W obs_data eps step n_dim st0 g0)))
                 = cur_ps self \/
                 prior_eval W (cur_ps (mc_self
                   (fst (mcmc_move W obs_data eps step n_dim st0 g0)))) <> NInf).
  { destruct (mcmc_move_cases W obs_data eps step n_dim st0 g0)
      as [(-> & _) | (p & data & d & g2 & _ & -> & _ & _ & Hacc)]; [exact Hcur|].
    right. cbn [cur_ps]. intros Hzero. rewrite Hzero in Hacc.
    specialize (Hrand g2).
    destruct (cur_log_prior (mc_self st0)); cbn in Hacc; try discriminate;
      rewrite Rltb_false in Hacc by exact Hrand; discriminate. }
  split; [exact Hnew|].
  apply Forall_app. split; [exact Hall|]. constructor; [exact Hnew | constructor].
Qed.

End McmcRuns.

(** X8: for a sampler whose stored log prior is the one of its state, as
    [__init__] leaves it, [MCMC.run] leaves the sampler at the last element of
    the chain it returns, with the log prior of that state stored. *)
Theorem MCMC_run_state (W : World) self obs_data eps step n_samples info
  (g g' : rng W) r self' :
  MCMC_run W self obs_data eps step n_samples info g = Ok (r, self', g') ->
  cur_log_prior self = prior_eval W (cur_ps self) ->
  cur_ps self' = last (mcmc_chain r) (cur_ps self) /\
  cur_log_prior self' = prior_eval W (cur_ps self').
Proof.
  intros H Hinit. apply MCMC_run_inv in H.
  destruct H as (_ & st & Hloop & -> & -> & _).
  destruct (mcmc_loop_state W self obs_data eps step n_samples g g' st
              Hloop Hinit) as [Hlp Hlast].
  split; [symmetry; exact Hlast | exact Hlp].
Qed.

(** X9: [MCMC.run] keeps the dimension of the state: the state it leaves
    and every element of the chain have as many entries as the state it
    started from. *)
Theorem MCMC_run_dimension (W : World) self obs_data eps step n_samples info
  (g g' : rng W) r self' :
  MCMC_run W self obs_data eps step n_samples info g = Ok (r, self', g') ->
  length (cur_ps self') = length (cur_ps self) /\
  Forall (fun p => length p = length (cur_ps self)) (mcmc_chain r).
Proof.
  intros H. apply MCMC_run_inv in H.
  destruct H as (_ & st & Hloop & -> & -> & _).
  exact (mcmc_loop_dim W self obs_data eps step n_samples g g' st Hloop).
Qed.

(** X10: with uniform draws that are not negative, [MCMC.run] never moves
    to a point of zero prior density: every element of the chain is the state
    the run started from or has a log prior other than [-inf]. *)
Theorem MCMC_run_support (W : World) self obs_data eps step n_samples info
  (g g' : rng W) r self' :
  (forall g0, (0 <= fst (rng_rand W g0))%R) ->
  MCMC_run W self obs_data eps step n_samples info g = Ok (r, self', g') ->
  Forall (fun p => p = cur_ps self \/ prior_eval W p <> NInf) (mcmc_chain r).
Proof.
  intros Hrand H. apply MCMC_run_inv in H.
  destruct H as (_ & st & Hloop & -> & -> & _).
  exact (mcmc_loop_support W self obs_data eps step n_samples g g' st
           Hrand Hloop).
Qed.

(** X11: with a tolerance that is zero, negative, [-inf] or NaN,
    [MCMC.run] accepts no proposal and never returns: [cur_dist] is still
    None when the log line of the first iteration formats it, which raises a
    TypeError; with [n_samples = 0] there is no iteration and the acceptance
    rate divides by zero. *)
Theorem MCMC_run_not_positive (W : World) self obs_data eps step n_samples
  info (g : rng W) :
  not_positive eps ->
  MCMC_run W self obs_data eps step n_samples info g
  = Raise (match n_samples with O => ZeroDivisionError | S _ => TypeError end).
Proof.
  intros Heps. unfold MCMC_run. destruct n_samples as [|n]; [reflexivity|].
  cbn [mcmc_loop].
  rewrite mcmc_step_never; [reflexivity | exact Heps | reflexivity].
Qed.

Section McmcCompose.

Context (W : World).
Variables (obs_data : option vec) (eps step : xfloat) (n_dim : nat).

Lemma mcmc_loop_add (n m : nat) :
  forall st g,
    mcmc_loop W (n + m) obs_data eps step n_dim st g
    = (do (st1, g1) <- mcmc_loop W n obs_data eps step n_dim st g;
       mcmc_loop W m obs_data eps step n_dim st1 g1).
Proof.
  induction n as [|n IH]; intros st g; cbn [Nat.add mcmc_loop bind];
    [reflexivity|].
  destruct (mcmc_step W obs_data eps step n_dim st g) as [[st1 g1]| |];
    cbn [bind]; [apply IH | reflexivity | reflexivity].
Qed.

(** A loop that returns after at least one iteration has set [cur_dist]. *)
Lemma mcmc_loop_cur_dist (n : nat) :
  forall st g st' g',
    mcmc_loop W n obs_data eps step n_dim st g = Ok (st', g') ->
    n <> 0 \/ mc_cur_dist st <> None ->
    mc_cur_dist st' <> None.
Proof.
  induction n as [|n IH]; intros st g st' g' H Hd; cbn [mcmc_loop] in H.
  - injection H as <- _. destruct Hd as [Hd | Hd]; [congruence | exact Hd].
  - bind_inv H. destruct a as [st1 g1].
    apply mcmc_step_Ok in Hm. destruct Hm as [_ Hm].
    apply (IH _ _ _ _ H). right. exact Hm.
Qed.

(** A move uses the recorded chain, the counter and [cur_dist] only to extend
    or to keep them. *)
Lemma mcmc_move_self (st st0 : mcmc_state) (g : rng W) :
  mc_self st = mc_self st0 ->
  snd (mcmc_move W obs_data eps step n_dim st g)
  = snd (mcmc_move W obs_data eps step n_dim st0 g) /\
  mc_self (fst (mcmc_move W obs_data eps step n_dim st g))
  = mc_self (fst (mcmc_move W obs_data eps step n_dim st0 g)).
Proof.
  intros Hself. unfold mcmc_move. rewrite Hself.
  destruct (mcmc_propose W obs_data step n_dim (mc_self st0) g)
    as [[[p data] d] g2].
  destruct (xltb d eps); [|split; reflexivity].
  destruct (rng_rand W g2) as [u g3].
  destruct (xltb (Fin u) _); split; reflexivity.
Qed.

(** A loop that returns from a fresh start returns as well, with the same
    sampler, generator and new chain elements, when it continues a run that
    has already set [cur_dist]. *)
Lemma mcmc_loop_self (m : nat) :
  forall st st0 g st0' g',
    mc_self st = mc_self st0 ->
    mc_cur_dist st <> None ->
    mcmc_loop W m obs_data eps step n_dim st0 g = Ok (st0', g') ->
    exists st' tail,
      mcmc_loop W m obs_data eps step n_dim st g = Ok (st', g') /\
      mc_self st' = mc_self st0' /\
      mc_ps st' = mc_ps st ++ tail /\
      mc_ps st0' = mc_ps st0 ++ tail.
Proof.
  induction m as [|m IH]; intros st st0 g st0' g' Hself Hd H;
    cbn [mcmc_loop] in H |- *.
  - injection H as <- <-. exists st, []. rewrite !app_nil_r. auto.
  - bind_inv H. destruct a as [st2 g2].
    apply mcmc_step_Ok in Hm. destruct Hm as [Hm _].
    pose proof (mcmc_move_self st st0 g Hself) as [Hg Hs].
    pose proof (mcmc_move_chain W obs_data eps step n_dim st g) as Hc.
    pose proof (mcmc_move_chain W obs_data eps step n_dim st0 g) as Hc0.
    pose proof (mcmc_move_cur_dist W obs_data eps step n_dim st g Hd) as Hd1.
    cbn zeta in Hc, Hc0.
    rewrite (mcmc_step_formats W obs_data eps step n_dim st g Hd1).
    destruct (mcmc_move W obs_data eps step n_dim st g) as [st1 g1].
    rewrite Hm in Hg, Hs, Hc0. cbn [fst snd] in *. subst g1. cbn [bind].
    destruct (IH st1 st2 g2 st0' g' Hs Hd1 H) as (st' & tail & Hl & Hs' & Ht & Ht0).
    exists st', (cur_ps (mc_self st1) :: tail).
    rewrite Ht, Ht0, Hc, Hc0, Hs, <- !app_assoc. auto.
Qed.

End McmcCompose.

(** X12: a run of [MCMC.run] for [n] samples followed by a run for [m]
    samples on the sampler and generator the first one left ends with the
    sampler and generator that a single run for [n + m] samples ends with, and
    the chain of the single run is the chain of the first run followed by the
    chain of the second. *)
Theorem MCMC_run_join (W : World) self obs_data eps step (n m : nat) info
  (g g1 g2 : rng W) r1 r2 self1 self2 :
  MCMC_run W self obs_data eps step n info g = Ok (r1, self1, g1) ->
  MCMC_run W self1 obs_data eps step m info g1 = Ok (r2, self2, g2) ->
  exists r,
    MCMC_run W self obs_data eps step (n + m) info g = Ok (r, self2, g2) /\
    mcmc_chain r = mcmc_chain r1 ++ mcmc_chain r2.
Proof.
  intros H1 H2.
  apply MCMC_run_inv in H1. destruct H1 as (Hn & st1 & Hl1 & -> & Hc1 & _).
  pose proof (mcmc_loop_dim W self obs_data eps step n g g1 st1 Hl1)
    as [Hdim _].
  apply MCMC_run_inv in H2. destruct H2 as (Hm & st2 & Hl2 & -> & Hc2 & _).
  rewrite Hdim in Hl2.
  pose proof (mcmc_loop_cur_dist W obs_data eps step _ n _ _ _ _ Hl1
                (or_introl Hn)) as Hd1.
  destruct (mcmc_loop_self W obs_data eps step (length (cur_ps self)) m
              st1 (mkMcmcState (mc_self st1) [] 0 None) g1 st2 g2
              eq_refl Hd1 Hl2)
    as (st & tail & Hl & Hs & Ht & Ht0).
  cbn [mc_ps app] in Ht0.
  unfold MCMC_run. rewrite mcmc_loop_add, Hl1. cbn [bind]. rewrite Hl.
  cbn [bind].
  destruct (n + m =? 0) eqn:Hz; [apply Nat.eqb_eq in Hz; lia|].
  eexists. rewrite Hs. split; [reflexivity|].
  rewrite Hc1, Hc2, Ht0, <- Ht. destruct info; reflexivity.
Qed.

(** ** More on the populations of [SMC] *)

Lemma assign_row_length (d : nat) (v r : vec) :
  assign_row d v = Ok r -> length r = d.
Proof.
  unfold assign_row. destruct (length v =? d) eqn:Hl.
  - intros [= <-]. now apply Nat.eqb_eq.
  - destruct v as [|x [|y v]]; try discriminate.
    intros [= <-]. apply repeat_length.
Qed.

Lemma set_out_of_range {A : Type} (l : list A) :
  forall i x, length l <= i -> set l i x = Raise IndexError.
Proof.
  induction l as [|y l IH]; intros [|i] x H; cbn [set]; try reflexivity.
  - cbn in H. lia.
  - rewrite IH; [reflexivity | cbn in H; lia].
Qed.

Lemma take_members {A : Type} (l : list A) (idx : list nat) :
  forall l', take l idx = Ok l' ->
             length l' = length idx /\ Forall (fun x => In x l) l'.
Proof.
  induction idx as [|i idx IH]; intros l' H; cbn [take] in H.
  - injection H as <-. split; [reflexivity | constructor].
  - apply bind_Ok in H. destruct H as (x & Hx & H).
    apply bind_Ok in H. destruct H as (xs & Hxs & H). injection H as <-.
    destruct (IH _ Hxs) as [Hlen Hall]. cbn [length]. split; [lia|].
    constructor; [|exact Hall].
    unfold get in Hx. destruct (nth_error l i) eqn:Hn; [|discriminate].
    injection Hx as <-. eapply nth_error_In; eassumption.
Qed.

Lemma broadcast2_shapes (f : xfloat -> xfloat -> xfloat) (a b r : vec) :
  broadcast2 f a b = Ok r ->
  length a = length b \/ length a = 1 \/ length b = 1.
Proof.
  unfold broadcast2. destruct (length a =? length b) eqn:Hl.
  - intros _. left. now apply Nat.eqb_eq.
  - destruct a as [|x [|y a]]; destruct b as [|z [|t b]];
      try discriminate; intros _; cbn; tauto.
Qed.

Section NextMore.

Context (W : World).
Variables (ps : array2) (log_weights : vec) (obs_data : option vec)
          (eps : xfloat) (weights : vec) (std : list vec).

Lemma discrete_sample_n_length (p : vec) (n : nat) :
  forall g, length (fst (discrete_sample_n W p n g)) = n.
Proof.
  induction n as [|n IH]; intros g; cbn [discrete_sample_n]; [reflexivity|].
  destruct (discrete_sample W p g) as [i g1]. specialize (IH g1).
  destruct (discrete_sample_n W p n g1) as [idx g2]. cbn [fst length] in *.
  now rewrite IH.
Qed.

Lemma propose_row g p data d g' :
  propose W ps obs_data weights std g = Ok (p, data, d, g') ->
  length p = shape1 ps.
Proof.
  unfold propose. destruct (discrete_sample W weights g) as [idx g1].
  intros H. bind_inv H. destruct (rng_randn W (shape1 ps) g1) as [z g2].
  bind_inv H. bind_inv H. bind_inv H.
  destruct (sim_model W a2 g2) as [data' g3]. injection H as <- _ _ _.
  eapply assign_row_length; eassumption.
Qed.

(** The row a slot ends with has the length of a row of [ps], and the counter
    does not go down. *)
Lemma propose_loop_row (fuel : nat) :
  forall dist u g n p g' n',
    propose_loop W ps obs_data eps weights std fuel dist u g n = Ok (p, g', n') ->
    length u = shape1 ps ->
    length p = shape1 ps /\ n <= n'.
Proof.
  induction fuel as [|fuel IH]; intros dist u g n p g' n' H Hu;
    cbn [propose_loop] in H;
    (destruct (xgtb dist eps);
     [| injection H as <- _ <-; split; [exact Hu | lia]]); [discriminate|].
  bind_inv H. destruct a as [[[p1 data1] d1] g1].
  apply IH in H; [|eapply propose_row; eassumption]. split; [tauto | lia].
Qed.

Lemma fill_slot_facts (fuel i : nat) (st st' : next_state W) :
  fill_slot W ps log_weights obs_data eps weights std fuel i st = Ok st' ->
  exists p,
    nx_new_ps W st' = nx_new_ps W st ++ [p] /\
    length p = shape1 ps /\
    length (nx_new_log_weights W st') = length (nx_new_log_weights W st) /\
    i < length (nx_new_log_weights W st) /\
    (length log_weights = shape0 ps \/ length log_weights = 1 \/ shape0 ps = 1) /\
    (xgtb PInf eps = true -> S (nx_n_sims W st) <= nx_n_sims W st') /\
    (xgtb PInf eps = false ->
     nx_n_sims W st' = nx_n_sims W st /\ nx_rng W st' = nx_rng W st /\
     p = np_empty W (shape1 ps)).
Proof.
  unfold fill_slot. intros H. bind_inv H. destruct a as [[p g1] n1].
  bind_inv H. rename a into mixture. bind_inv H. injection H as <-.
  cbn [nx_new_ps nx_new_log_weights nx_n_sims nx_rng].
  exists p. split; [reflexivity|].
  pose proof (propose_loop_row _ _ _ _ _ _ _ _ Hm (np_empty_length W _))
    as [Hp Hle].
  split; [exact Hp|].
  split; [eapply set_length; eassumption|].
  split.
  { destruct (Nat.lt_ge_cases i (length (nx_new_log_weights W st)))
      as [Hi | Hi]; [exact Hi|].
    rewrite set_out_of_range in Hm1 by exact Hi. discriminate. }
  split.
  { apply broadcast2_shapes in Hm0. unfold log_kernel in Hm0.
    rewrite length_map in Hm0. exact Hm0. }
  split.
  - intros Hgt. eapply propose_loop_first in Hm; [|exact Hgt].
    destruct Hm as (k & data & d & _ & _ & -> & _). lia.
  - intros Hgt. rewrite propose_loop_skip in Hm by exact Hgt.
    injection Hm as <- <- <-. repeat split; reflexivity.
Qed.

Lemma fill_slots_facts (fuel : nat) (slots : list nat) :
  forall st st',
    fill_slots W ps log_weights obs_data eps weights std fuel slots st = Ok st' ->
    exists new,
      nx_new_ps W st' = nx_new_ps W st ++ new /\
      length new = length slots /\
      Forall (fun p => length p = shape1 ps) new /\
      length (nx_new_log_weights W st') = length (nx_new_log_weights W st) /\
      Forall (fun i => i < length (nx_new_log_weights W st)) slots /\
      (slots <> [] ->
       length log_weights = shape0 ps \/ length log_weights = 1
       \/ shape0 ps = 1) /\
      (xgtb PInf eps = true ->
       nx_n_sims W st + length slots <= nx_n_sims W st') /\
      (xgtb PInf eps = false ->
       nx_n_sims W st' = nx_n_sims W st /\ nx_rng W st' = nx_rng W st /\
       new = repeat (np_empty W (shape1 ps)) (length slots)).
Proof.
  induction slots as [|i slots IH]; intros st st' H; cbn [fill_slots] in H.
  - injection H as <-. exists []. rewrite app_nil_r. cbn.
    repeat split; try constructor; try lia; congruence.
  - bind_inv H. rename a into st1.
    apply fill_slot_facts in Hm.
    destruct Hm as (p & Hps & Hp & Hlw & Hi & Hshape & Hn1 & Hn0).
    destruct (IH _ _ H) as (new & Hnew & Hlen & Hall & Hlw' & Hidx & _ & Hm1 & Hm0).
    exists (p :: new). rewrite Hnew, Hps, <- app_assoc. cbn [app length repeat].
    split; [reflexivity|]. split; [lia|]. split; [constructor; assumption|].
    split; [congruence|].
    split; [constructor; [exact Hi | rewrite <- Hlw; exact Hidx]|].
    split; [intros _; exact Hshape|].
    split.
    + intros Hgt. specialize (Hn1 Hgt). specialize (Hm1 Hgt). lia.
    + intros Hgt. destruct (Hn0 Hgt) as (Ha & Ha' & Hb).
      destruct (Hm0 Hgt) as (Hc & Hc' & Hd).
      split; [congruence|]. split; [congruence|]. now rewrite Hb, Hd.
Qed.

End NextMore.

Section StepMore.

Context (W : World).

Lemma sample_next_population_inv fuel ps lw obs_data eps g new_ps new_lw n g' :
  sample_next_population W fuel ps lw obs_data eps g = Ok (new_ps, new_lw, n, g') ->
  exists std st,
    cholesky W (population_cov ps) = Ok std /\
    fill_slots W ps lw obs_data eps (map xexp lw) std fuel (seq 0 (shape0 ps))
      (mkNext W [] (np_empty W (length lw)) 0 g) = Ok st /\
    new_ps = mkArray2 (shape1 ps) (nx_new_ps W st) /\
    new_lw = normalize (nx_new_log_weights W st) /\
    n = nx_n_sims W st /\ g' = nx_rng W st.
Proof.
  unfold sample_next_population. intros H. bind_inv H. rename a into std.
  bind_inv H. rename a into st. injection H as <- <- <- <-.
  exists std, st. repeat split; assumption.
Qed.

Lemma resample_population_shape (ps : array2) (log_weights : vec) (g : rng W)
  (ps' : array2) (g' : rng W) :
  resample_population W ps log_weights g = Ok (ps', g') ->
  shape0 ps' = shape0 ps /\ shape1 ps' = shape1 ps.
Proof.
  unfold resample_population.
  pose proof (discrete_sample_n_length W (map xexp log_weights) (shape0 ps) g)
    as Hlen.
  destruct (discrete_sample_n W (map xexp log_weights) (shape0 ps) g)
    as [idx g1]. cbn [fst] in Hlen.
  intros H. bind_inv H. injection H as <- <-.
  apply take_members in Hm. destruct Hm as [Hl _].
  unfold shape0 at 1. cbn [rows shape1]. split; congruence.
Qed.

(** X13: [resample_population] returns as many particles as it was given,
    of the same dimension, and each of them is one of the particles it was
    given. *)
Theorem resample_population_rows (ps : array2) (log_weights : vec) (g : rng W)
  (ps' : array2) (g' : rng W) :
  resample_population W ps log_weights g = Ok (ps', g') ->
  shape0 ps' = shape0 ps /\ shape1 ps' = shape1 ps /\
  Forall (fun p => In p (rows ps)) (rows ps').
Proof.
  unfold resample_population.
  pose proof (discrete_sample_n_length W (map xexp log_weights) (shape0 ps) g)
    as Hlen.
  destruct (discrete_sample_n W (map xexp log_weights) (shape0 ps) g)
    as [idx g1]. cbn [fst] in Hlen.
  intros H. bind_inv H. injection H as <- <-.
  apply take_members in Hm. destruct Hm as [Hl Hall].
  unfold shape0 at 1. cbn [rows shape1]. repeat split; [congruence | exact Hall].
Qed.

(** The numbers of particles, of dimensions and of log-weights that
    [sample_next_population] returns. *)
Lemma sample_next_population_dims (fuel : nat) (ps : array2)
  (log_weights : vec) (obs_data : option vec) (eps : xfloat) (g : rng W)
  (new_ps : array2) (new_log_weights : vec) (n_sims : nat) (g' : rng W) :
  sample_next_population W fuel ps log_weights obs_data eps g
  = Ok (new_ps, new_log_weights, n_sims, g') ->
  shape0 new_ps = shape0 ps /\ shape1 new_ps = shape1 ps /\
  length new_log_weights = length log_weights.
Proof.
  intros H. split; [|split].
  - apply sample_next_population_inv in H.
    destruct H as (std & st & _ & Hf & -> & _).
    apply fill_slots_facts in Hf. destruct Hf as (new & Hnew & Hlen & _).
    cbn [nx_new_ps app] in Hnew. unfold shape0 at 1. cbn [rows].
    rewrite Hnew, Hlen. apply length_seq.
  - apply sample_next_population_inv in H.
    destruct H as (std & st & _ & _ & -> & _). reflexivity.
  - apply sample_next_population_weights in H.
    destruct H as (u & -> & Hu). rewrite normalize_length. exact Hu.
Qed.

(** X14: the population that [sample_next_population] returns has the shape
    of the one it was given, each of its rows has [n_dim] entries, and there
    are as many new log-weights as old ones; this for every tolerance. *)
Theorem sample_next_population_shape (fuel : nat) (ps : array2)
  (log_weights : vec) (obs_data : option vec) (eps : xfloat) (g : rng W)
  (new_ps : array2) (new_log_weights : vec) (n_sims : nat) (g' : rng W) :
  sample_next_population W fuel ps log_weights obs_data eps g
  = Ok (new_ps, new_log_weights, n_sims, g') ->
  shape0 new_ps = shape0 ps /\ shape1 new_ps = shape1 ps /\
  Forall (fun p => length p = shape1 ps) (rows new_ps) /\
  length new_log_weights = length log_weights.
Proof.
  intros H. apply sample_next_population_inv in H.
  destruct H as (std & st & _ & Hf & -> & -> & _ & _).
  apply fill_slots_facts in Hf.
  destruct Hf as (new & Hnew & Hlen & Hall & Hlw & _).
  cbn [nx_new_ps nx_new_log_weights app] in Hnew, Hlw.
  unfold shape0 at 1. cbn [rows shape1]. rewrite Hnew.
  rewrite length_seq in Hlen.
  rewrite normalize_length, Hlw, np_empty_length. repeat split; assumption.
Qed.

(** X15: for a tolerance below [+inf], [sample_next_population] reports at
    least one simulation for each particle. *)
Theorem sample_next_population_count (fuel : nat) (ps : array2)
  (log_weights : vec) (obs_data : option vec) (eps : xfloat) (g : rng W)
  (new_ps : array2) (new_log_weights : vec) (n_sims : nat) (g' : rng W) :
  sample_next_population W fuel ps log_weights obs_data eps g
  = Ok (new_ps, new_log_weights, n_sims, g') ->
  xgtb PInf eps = true ->
  shape0 ps <= n_sims.
Proof.
  intros H Hgt. apply sample_next_population_inv in H.
  destruct H as (std & st & _ & Hf & -> & -> & -> & ->).
  apply fill_slots_facts in Hf.
  destruct Hf as (new & _ & _ & _ & _ & _ & _ & H1 & _).
  cbn [nx_n_sims] in H1. rewrite length_seq in H1. specialize (H1 Hgt). lia.
Qed.

Lemma sample_next_population_skip (fuel : nat) (ps : array2)
  (log_weights : vec) (obs_data : option vec) (eps : xfloat) (g : rng W)
  (new_ps : array2) (new_log_weights : vec) (n_sims : nat) (g' : rng W) :
  sample_next_population W fuel ps log_weights obs_data eps g
  = Ok (new_ps, new_log_weights, n_sims, g') ->
  xgtb PInf eps = false ->
  n_sims = 0 /\ g' = g /\
  new_ps = mkArray2 (shape1 ps) (repeat (np_empty W (shape1 ps)) (shape0 ps)).
Proof.
  intros H Hgt. apply sample_next_population_inv in H.
  destruct H as (std & st & _ & Hf & -> & -> & -> & ->).
  apply fill_slots_facts in Hf.
  destruct Hf as (new & Hnew & _ & _ & _ & _ & _ & _ & H0).
  cbn [nx_new_ps nx_n_sims nx_rng app] in Hnew, H0.
  rewrite length_seq in H0. destruct (H0 Hgt) as (Hn & Hg & Hr).
  repeat split; congruence.
Qed.

(** X16: for a tolerance that is [+inf] or NaN the test [dist > eps] fails
    before the first proposal: [sample_next_population] runs no simulation,
    leaves the generator as it was, and returns as population the rows of
    [np.empty_like(ps)] as they were allocated. *)
Theorem sample_next_population_no_simulation (fuel : nat) (ps : array2)
  (log_weights : vec) (obs_data : option vec) (eps : xfloat) (g : rng W)
  (new_ps : array2) (new_log_weights : vec) (n_sims : nat) (g' : rng W) :
  sample_next_population W fuel ps log_weights obs_data eps g
  = Ok (new_ps, new_log_weights, n_sims, g') ->
  eps = PInf \/ eps = NaN ->
  n_sims = 0 /\ g' = g /\
  new_ps = mkArray2 (shape1 ps) (repeat (np_empty W (shape1 ps)) (shape0 ps)).
Proof.
  intros H Heps. eapply sample_next_population_skip; [exact H|].
  destruct Heps as [-> | ->]; reflexivity.
Qed.

(** With two particles or more and another number of log-weights the sum
    [log_weights + log_kernel] or the assignment [new_log_weights[i]]
    raises. *)
Lemma sample_next_population_mismatch (fuel : nat) (ps : array2)
  (log_weights : vec) (obs_data : option vec) (eps : xfloat) (g : rng W)
  (r : array2 * vec * nat * rng W) :
  2 <= shape0 ps ->
  length log_weights <> shape0 ps ->
  sample_next_population W fuel ps log_weights obs_data eps g <> Ok r.
Proof.
  destruct r as [[[new_ps new_lw] n] g']. intros Hn Hne H.
  apply sample_next_population_inv in H.
  destruct H as (std & st & _ & Hf & _).
  apply fill_slots_facts in Hf.
  destruct Hf as (new & _ & _ & _ & _ & Hidx & Hshape & _).
  cbn [nx_new_log_weights] in Hidx. rewrite np_empty_length in Hidx.
  rewrite Forall_forall in Hidx.
  assert (H1 : 1 < length log_weights) by (apply Hidx, in_seq; lia).
  destruct Hshape as [Hs | [Hs | Hs]]; [|lia|lia|lia].
  destruct (shape0 ps); [lia | discriminate].
Qed.

(** X17: for a population of at least two particles,
    [sample_next_population] returns only when it was given as many
    log-weights as particles; with any other number the sum
    [log_weights + log_kernel] or the assignment [new_log_weights[i]]
    raises. *)
Theorem sample_next_population_lengths (fuel : nat) (ps : array2)
  (log_weights : vec) (obs_data : option vec) (eps : xfloat) (g : rng W)
  (r : array2 * vec * nat * rng W) :
  sample_next_population W fuel ps log_weights obs_data eps g = Ok r ->
  2 <= shape0 ps ->
  length log_weights = shape0 ps.
Proof.
  destruct r as [[[new_ps new_lw] n] g']. intros H Hn.
  apply sample_next_population_inv in H.
  destruct H as (std & st & _ & Hf & _).
  apply fill_slots_facts in Hf.
  destruct Hf as (new & _ & _ & _ & _ & Hidx & Hshape & _).
  cbn [nx_new_log_weights] in Hidx. rewrite np_empty_length in Hidx.
  rewrite Forall_forall in Hidx.
  assert (H1 : 1 < length log_weights) by (apply Hidx, in_seq; lia).
  destruct Hshape as [Hs | [Hs | Hs]]; [|exact Hs|lia|lia].
  destruct (shape0 ps); [lia | discriminate].
Qed.

End StepMore.

Lemma non_decreasing_snoc (l : list nat) (x : nat) :
  non_decreasing l -> last l 0 <= x -> l <> [] -> non_decreasing (l ++ [x]).
Proof.
  induction l as [|a [|b l] IH]; intros Hl Hx Hne.
  - congruence.
  - cbn in *. split; [exact Hx | exact I].
  - destruct Hl as [Hab Hl]. change ((a :: b :: l) ++ [x])
      with (a :: (b :: l) ++ [x]).
    cbn [non_decreasing app]. split; [exact Hab|].
    apply IH; [exact Hl | exact Hx | discriminate].
Qed.

Lemma sample_initial_population_count (W : World) obs_data n_particles
  n_initial_round (g g' : rng W) ps n_sims eps_init :
  sample_initial_population W obs_data n_particles n_initial_round g
  = Ok (ps, n_sims, eps_init, g') ->
  n_sims = n_initial_round.
Proof.
  unfold sample_initial_population.
  destruct (initial_round W n_initial_round obs_data g) as [[ps0 ds] g1].
  destruct (n_particles <? n_initial_round); intros H.
  - bind_inv H. bind_inv H. bind_inv H. bind_inv H. now injection H as _ <- _ _.
  - bind_inv H. now injection H as _ <- _ _.
Qed.

Section RunMore.

Context (W : World).
Variables (obs_data : option vec) (eps_decay : xfloat)
          (n_particles n_sims_budget : nat) (ess_min : xfloat).

Local Abbreviation loop :=
  (run_loop W obs_data eps_decay n_particles n_sims_budget ess_min).

Variable Inv : array2 -> vec -> xfloat -> nat -> History -> Prop.

Hypothesis Inv_step :
  forall fuel ps lw eps n_sims g h ps1 lw1 n_new g1 ps2 lw2,
    Inv ps lw eps n_sims h ->
    sample_next_population W fuel ps lw obs_data (xmul eps eps_decay) g
    = Ok (ps1, lw1, n_new, g1) ->
    stored W n_particles ps1 lw1 ps2 lw2 ->
    Inv ps2 lw2 (xmul eps eps_decay) (n_sims + n_new)
        (record h ps2 lw2 (xmul eps eps_decay)
                (log_ess_of lw1 (log_n_particles n_particles))
                (n_sims + n_new)).

Lemma run_loop_invariant_ps (fuel : nat) :
  forall ps lw eps n_sims g h h' g',
    Inv ps lw eps n_sims h ->
    loop fuel ps lw eps n_sims g h = Ok (h', g') ->
    exists ps' lw' eps' n_sims',
      Inv ps' lw' eps' n_sims' h' /\ n_sims_budget <= n_sims'.
Proof.
  induction fuel as [|fuel IH]; intros ps lw eps n_sims g h h' g' HI H;
    cbn [run_loop] in H;
    (destruct (n_sims <? n_sims_budget) eqn:Hlt;
     [| injection H as <- _; apply Nat.ltb_ge in Hlt; eauto 6]);
    [discriminate|].
  destruct (sample_next_population W fuel ps lw obs_data (xmul eps eps_decay) g)
    as [[[[ps1 lw1] n_new] g1]| |] eqn:Hnext; try discriminate.
  bind_inv H. destruct a as [[ps2 lw2] g2].
  assert (Hst : stored W n_particles ps1 lw1 ps2 lw2).
  { destruct (xltb _ _).
    - bind_inv Hm. destruct a as [ps3 g3]. injection Hm as <- <- <-.
      right. split; [eauto | reflexivity].
    - injection Hm as <- <- _. left. split; reflexivity. }
  pose proof (Inv_step _ _ _ _ _ _ _ _ _ _ _ _ _ HI Hnext Hst) as HI'.
  destruct (n_sims_budget <=? n_sims + n_new) eqn:Hle.
  - injection H as <- _. apply Nat.leb_le in Hle. eauto 6.
  - eapply IH; eassumption.
Qed.

End RunMore.

Section RunProperties.

Context (W : World).
Variables (obs_data : option vec) (eps_decay : xfloat)
          (n_particles n_sims_budget : nat) (ess_min : xfloat).

Local Abbreviation run :=
  (SMC_run W obs_data eps_decay n_particles n_sims_budget ess_min).
Local Abbreviation loop :=
  (run_loop W obs_data eps_decay n_particles n_sims_budget ess_min).

(** X18: the five lists that [SMC.run] returns have the same length, and it
    is at least one: there is one entry for the initial population and one
    for each completed iteration. *)
Theorem SMC_run_history_lengths (fuel n_initial_round : nat) (g g' : rng W)
  (h : History) :
  run fuel n_initial_round g = Ok (h, g') ->
  1 <= length (all_ps h) /\
  length (all_log_weights h) = length (all_ps h) /\
  length (all_eps h) = length (all_ps h) /\
  length (all_log_ess h) = length (all_ps h) /\
  length (all_n_sims h) = length (all_ps h).
Proof.
  intros H. apply SMC_run_inv in H.
  destruct H as (ps & n_sims & eps_init & g1 & _ & Hloop).
  pose (P := fun h : History =>
    1 <= length (all_ps h) /\
    length (all_log_weights h) = length (all_ps h) /\
    length (all_eps h) = length (all_ps h) /\
    length (all_log_ess h) = length (all_ps h) /\
    length (all_n_sims h) = length (all_ps h)).
  assert (Hend : exists (ps' : array2) (lw' : vec) (eps' : xfloat) n',
             P h /\ n_sims_budget <= n').
  { apply (run_loop_invariant_ps W obs_data eps_decay n_particles n_sims_budget
             ess_min (fun _ _ _ _ h => P h)) in Hloop.
    - exact Hloop.
    - intros ? ? ? ? ? ? h0 ? ? ? ? ? ? HP _ _. unfold P in *.
      cbn [record all_ps all_log_weights all_eps all_log_ess all_n_sims].
      rewrite !length_app. cbn [length]. lia.
    - unfold P. cbn. lia. }
  destruct Hend as (_ & _ & _ & _ & HP & _). exact HP.
Qed.

(** X19: the simulation counts recorded by [SMC.run] start at
    [n_initial_round], never go down, and the last one has reached
    [n_sims_budget]. *)
Theorem SMC_run_n_sims (fuel n_initial_round : nat) (g g' : rng W)
  (h : History) :
  run fuel n_initial_round g = Ok (h, g') ->
  hd 0 (all_n_sims h) = n_initial_round /\
  non_decreasing (all_n_sims h) /\
  n_sims_budget <= last (all_n_sims h) 0.
Proof.
  intros H. apply SMC_run_inv in H.
  destruct H as (ps & n_sims & eps_init & g1 & Hinit & Hloop).
  apply sample_initial_population_count in Hinit. subst n_sims.
  pose (P := fun (n : nat) (h : History) =>
    hd 0 (all_n_sims h) = n_initial_round /\
    non_decreasing (all_n_sims h) /\
    last (all_n_sims h) 0 = n /\ all_n_sims h <> []).
  assert (Hend : exists (ps' : array2) (lw' : vec) (eps' : xfloat) n',
             P n' h /\ n_sims_budget <= n').
  { apply (run_loop_invariant_ps W obs_data eps_decay n_particles n_sims_budget
             ess_min (fun _ _ _ n h => P n h)) in Hloop.
    - exact Hloop.
    - intros ? ? ? ? n ? h0 ? ? n_new ? ? ? (Hhd & Hnd & Hlast & Hne) _ _.
      unfold P. cbn [record all_n_sims].
      split; [rewrite hd_app by exact Hne; exact Hhd|].
      split; [apply non_decreasing_snoc; [exact Hnd | lia | exact Hne]|].
      split; [apply last_last | now destruct (all_n_sims h0)].
    - unfold P. cbn. repeat split; discriminate. }
  destruct Hend as (_ & _ & _ & n' & (Hhd & Hnd & Hlast & _) & Hle).
  repeat split; [exact Hhd | exact Hnd | lia].
Qed.

(** X20: all populations recorded by [SMC.run] have the shape of the
    initial one, and every recorded vector of log-weights has [n_particles]
    entries. *)
Theorem SMC_run_shapes (fuel n_initial_round : nat) (g g' : rng W)
  (h : History) :
  run fuel n_initial_round g = Ok (h, g') ->
  exists n d,
    Forall (fun ps => shape0 ps = n /\ shape1 ps = d) (all_ps h) /\
    Forall (fun lw => length lw = n_particles) (all_log_weights h).
Proof.
  intros H. apply SMC_run_inv in H.
  destruct H as (ps & n_sims & eps_init & g1 & _ & Hloop).
  exists (shape0 ps), (shape1 ps).
  pose (P := fun (ps' : array2) (lw : vec) (h : History) =>
    (shape0 ps' = shape0 ps /\ shape1 ps' = shape1 ps) /\
    length lw = n_particles /\
    Forall (fun q => shape0 q = shape0 ps /\ shape1 q = shape1 ps) (all_ps h) /\
    Forall (fun lw => length lw = n_particles) (all_log_weights h)).
  assert (Hend : exists ps' lw' (eps' : xfloat) n',
             P ps' lw' h /\ n_sims_budget <= n').
  { apply (run_loop_invariant_ps W obs_data eps_decay n_particles n_sims_budget
             ess_min (fun ps' lw _ _ h => P ps' lw h)) in Hloop.
    - exact Hloop.
    - intros ? ps0 lw0 ? ? ? h0 ps1 lw1 ? ? ps2 lw2
        ((Hs0 & Hs1) & Hlw & Hps & Hlws) Hnext Hst.
      apply sample_next_population_dims in Hnext.
      destruct Hnext as (Hn0 & Hn1 & Hnl).
      assert (Hps2 : shape0 ps2 = shape0 ps /\ shape1 ps2 = shape1 ps).
      { destruct Hst as [[-> _] | [(ga & gb & Hre) _]].
        - split; congruence.
        - apply resample_population_shape in Hre. destruct Hre as [Hr0 Hr1].
          split; congruence. }
      assert (Hlw2 : length lw2 = n_particles).
      { destruct Hst as [[_ ->] | [_ ->]];
          [congruence | apply np_full_length]. }
      unfold P. cbn [record all_ps all_log_weights].
      repeat split; try tauto;
        apply Forall_app; (split; [assumption|]); constructor;
        solve [assumption | constructor].
    - unfold P. cbn [record all_ps all_log_weights app].
      rewrite np_full_length. repeat split; repeat constructor.
      apply np_full_length. }
  destruct Hend as (_ & _ & _ & _ & (_ & _ & Hps & Hlws) & _).
  split; assumption.
Qed.

End RunProperties.

Section RunTolerance.

Context (W : World).
Variables (obs_data : option vec) (eps_decay : xfloat)
          (n_particles n_sims_budget : nat) (ess_min : xfloat).

Local Abbreviation run :=
  (SMC_run W obs_data eps_decay n_particles n_sims_budget ess_min).
Local Abbreviation loop :=
  (run_loop W obs_data eps_decay n_particles n_sims_budget ess_min).

(** X21: the tolerances recorded by [SMC.run] are [eps_init],
    [eps_init * eps_decay], [eps_init * eps_decay * eps_decay], and so on: the
    entry of iteration [k] is [eps_init] multiplied [k] times by
    [eps_decay]. *)
Theorem SMC_run_eps_geometric (fuel n_initial_round : nat) (g g' g1 : rng W)
  (h : History) (ps : array2) (n_sims : nat) (eps_init : xfloat) :
  sample_initial_population W obs_data n_particles n_initial_round g
  = Ok (ps, n_sims, eps_init, g1) ->
  run fuel n_initial_round g = Ok (h, g') ->
  all_eps h = map (decayed eps_init eps_decay) (seq 0 (length (all_eps h))).
Proof.
  intros Hinit H. apply SMC_run_inv in H.
  destruct H as (ps0 & n0 & e0 & g0 & Hinit' & Hloop).
  rewrite Hinit in Hinit'. injection Hinit' as <- <- <- <-.
  pose (P := fun (eps : xfloat) (h : History) =>
    all_eps h = map (decayed eps_init eps_decay) (seq 0 (length (all_eps h))) /\
    exists k, length (all_eps h) = S k /\ eps = decayed eps_init eps_decay k).
  assert (Hend : exists (ps' : array2) (lw' : vec) eps' n',
             P eps' h /\ n_sims_budget <= n').
  { apply (run_loop_invariant_ps W obs_data eps_decay n_particles n_sims_budget
             ess_min (fun _ _ eps _ h => P eps h)) in Hloop.
    - exact Hloop.
    - intros ? ? ? eps ? ? h0 ? ? ? ? ? ? (Hall & k & Hk & Heps) _ _.
      unfold P. cbn [record all_eps]. rewrite length_app, Hk. cbn [length].
      replace (S k + 1) with (S (S k)) by lia. split.
      + rewrite seq_S, map_app, <- Hk, <- Hall. cbn [map Nat.add].
        rewrite Hk. subst eps. reflexivity.
      + exists (S k). split; [reflexivity|]. subst eps. reflexivity.
    - unfold P. cbn [record all_eps app length seq map].
      split; [reflexivity|]. exists 0. split; reflexivity. }
  destruct Hend as (_ & _ & _ & _ & (Hall & _) & _). exact Hall.
Qed.

(** With the tolerance at [+inf] and the budget not reached, the loop never
    ends: an iteration runs no simulation. *)
Lemma run_loop_stalls (d : R) (fuel : nat) :
  eps_decay = Fin d -> (0 < d)%R ->
  forall ps lw n_sims g h r,
    n_sims < n_sims_budget ->
    loop fuel ps lw PInf n_sims g h <> Ok r.
Proof.
  intros -> Hd.
  assert (Hmul : xmul PInf (Fin d) = PInf).
  { cbn [xmul]. unfold inf_times. rewrite Reqb_false by lra.
    rewrite Rltb_true by lra. reflexivity. }
  induction fuel as [|fuel IH]; intros ps lw n_sims g h r Hlt;
    cbn [run_loop]; pose proof Hlt as Hlt'; apply Nat.ltb_lt in Hlt';
    rewrite Hlt'; [discriminate|].
  rewrite Hmul.
  destruct (sample_next_population W fuel ps lw obs_data PInf g)
    as [[[[ps1 lw1] n_new] g1]| |] eqn:Hnext; try discriminate.
  apply sample_next_population_skip in Hnext; [|reflexivity].
  destruct Hnext as (-> & _ & _). rewrite Nat.add_0_r.
  destruct (if xltb _ _ then _ else _) as [[[ps2 lw2] g2]| |];
    cbn [bind]; try discriminate.
  assert (Hle : (n_sims_budget <=? n_sims) = false) by (apply Nat.leb_gt; lia).
  rewrite Hle. apply IH. exact Hlt.
Qed.

(** X22: when the initial tolerance is [+inf] (a failed simulation in the
    initial round is enough), [eps_decay] is positive and the budget exceeds
    [n_initial_round], the tolerance stays at [+inf], no iteration runs a
    simulation, and [SMC.run] never returns a history: the loop goes on
    until an exception ends it, if one does. *)
Theorem SMC_run_stalls (d : R) (fuel n_initial_round : nat) (g g1 : rng W)
  (ps : array2) (n_sims : nat) (r : History * rng W) :
  sample_initial_population W obs_data n_particles n_initial_round g
  = Ok (ps, n_sims, PInf, g1) ->
  eps_decay = Fin d -> (0 < d)%R ->
  n_initial_round < n_sims_budget ->
  run fuel n_initial_round g <> Ok r.
Proof.
  intros Hinit Hdecay Hd Hlt. unfold SMC_run. rewrite Hinit. cbn [bind].
  apply sample_initial_population_count in Hinit. subst n_sims.
  eapply run_loop_stalls; eassumption.
Qed.

Lemma run_loop_grows (fuel : nat) :
  forall ps lw eps n_sims g h h' g',
    loop fuel ps lw eps n_sims g h = Ok (h', g') ->
    (n_sims_budget <= n_sims -> h' = h) /\
    (n_sims < n_sims_budget -> length (all_ps h) < length (all_ps h')).
Proof.
  induction fuel as [|fuel IH]; intros ps lw eps n_sims g h h' g' H;
    cbn [run_loop] in H;
    (destruct (n_sims <? n_sims_budget) eqn:Hlt;
     [apply Nat.ltb_lt in Hlt
     | injection H as <- _; apply Nat.ltb_ge in Hlt; split; [reflexivity|lia]]);
    [discriminate|].
  split; [lia|]. intros _.
  destruct (sample_next_population W fuel ps lw obs_data (xmul eps eps_decay) g)
    as [[[[ps1 lw1] n_new] g1]| |] eqn:Hnext; try discriminate.
  bind_inv H. destruct a as [[ps2 lw2] g2].
  destruct (n_sims_budget <=? n_sims + n_new) eqn:Hle.
  - injection H as <- _. cbn [record all_ps]. rewrite length_app. cbn. lia.
  - apply Nat.leb_gt in Hle. apply IH in H. destruct H as [_ H].
    specialize (H Hle). cbn [record all_ps] in H. rewrite length_app in H.
    cbn [length] in H. lia.
Qed.

(** X23: [SMC.run] returns the initial population alone exactly when
    [n_sims_budget] is at most [n_initial_round]. *)
Theorem SMC_run_single_entry (fuel n_initial_round : nat) (g g' : rng W)
  (h : History) :
  run fuel n_initial_round g = Ok (h, g') ->
  (length (all_ps h) = 1 <-> n_sims_budget <= n_initial_round).
Proof.
  intros H. apply SMC_run_inv in H.
  destruct H as (ps & n_sims & eps_init & g1 & Hinit & Hloop).
  apply sample_initial_population_count in Hinit. subst n_sims.
  apply run_loop_grows in Hloop. destruct Hloop as [Hstop Hgo].
  cbn [record all_ps app length] in Hgo. split.
  - intros Hlen. destruct (Nat.le_gt_cases n_sims_budget n_initial_round)
      as [Hle | Hlt]; [exact Hle|]. specialize (Hgo Hlt). lia.
  - intros Hle. rewrite (Hstop Hle). reflexivity.
Qed.

(** X24: when the covariance of the initial population has no Cholesky
    factor and the budget exceeds [n_initial_round], [SMC.run] ends with a
    NameError: the error of the factorisation reaches the [except] clause,
    whose exception name is not defined. *)
Theorem SMC_run_cholesky_fails (fuel n_initial_round : nat) (g g1 : rng W)
  (ps : array2) (n_sims : nat) (eps_init : xfloat) (e : exn) :
  sample_initial_population W obs_data n_particles n_initial_round g
  = Ok (ps, n_sims, eps_init, g1) ->
  cholesky W (population_cov ps) = Raise e ->
  n_initial_round < n_sims_budget ->
  run (S fuel) n_initial_round g = Raise NameError.
Proof.
  intros Hinit Hchol Hlt. unfold SMC_run. rewrite Hinit. cbn [bind].
  apply sample_initial_population_count in Hinit. subst n_sims.
  eapply run_loop_raise; [exact Hlt|].
  unfold sample_next_population. rewrite Hchol. reflexivity.
Qed.

End RunTolerance.

(** ** Concrete runs behind the properties of [SMC] *)

Section StubSkip.

Local Open Scope R_scope.

Variables (gens : nat -> R) (lo z a b l : R).
Hypothesis spread : (a - b) * (a - b) = 4.

Let W : World := stub gens lo z never_fails.
Let pop : array2 := mkArray2 1 [[Fin a]; [Fin b]].

Lemma stub_fill_slot_skip (eps : xfloat) (weights : vec) (fuel i : nat) nps nlw
  (n g : nat) :
  xgtb PInf eps = false ->
  exists m,
    fill_slot W pop [Fin l; Fin l] obs_one eps weights [[Fin (sqrt 2)]]
              fuel i (mkNext W nps nlw n g)
    = (do nlw' <- set nlw i (xsub (stub_prior_eval lo [Fin 0]) (Fin m));
       Ok (mkNext W (nps ++ [[Fin 0]]) nlw' n g)).
Proof.
  intros Hgt. unfold fill_slot.
  cbn [nx_rng nx_n_sims nx_new_ps nx_new_log_weights].
  rewrite propose_loop_skip by exact Hgt. cbn [bind].
  unfold np_empty, log_kernel, W, pop.
  cbn [shape1 seq map uninit stub rows zip_with xsub xopp xadd
       solve_triangular stub_solve_triangular].
  unfold xdiv. rewrite !Reqb_false by exact sqrt2_neq_0.
  cbn [map xmul xsum fold_right xadd broadcast2 length Nat.eqb zip_with bind].
  rewrite logsumexp_proper; [eexists; reflexivity | reflexivity |].
  cbn. match goal with |- 0 < exp ?u + (exp ?v + 0) =>
    pose proof (exp_pos u); pose proof (exp_pos v); lra end.
Qed.

(** With the tolerance at [+inf] or NaN the next population is the
    uninitialised array, at no simulation. *)
Lemma stub_next_population_skip (eps : xfloat) (fuel g : nat) :
  xgtb PInf eps = false ->
  exists new_lw,
    sample_next_population W fuel pop [Fin l; Fin l] obs_one eps g
    = Ok (mkArray2 1 [[Fin 0]; [Fin 0]], new_lw, 0%nat, g).
Proof.
  intros Hgt. unfold sample_next_population.
  unfold W, pop. rewrite stub_std by exact spread. cbn [bind].
  unfold shape0, np_empty.
  cbn [rows length seq fill_slots map shape1 uninit stub].
  destruct (stub_fill_slot_skip eps (map xexp [Fin l; Fin l]) fuel 0 []
              [Fin 0; Fin 0] 0 g Hgt) as (m0 & H0).
  unfold W, pop in H0. cbn [map] in H0 |- *. rewrite H0. cbn [set bind app].
  match goal with |- context [fill_slot _ _ _ _ _ _ _ _ 1 ?st] =>
    destruct (stub_fill_slot_skip eps (map xexp [Fin l; Fin l]) fuel 1
                [[Fin 0]] [xsub (stub_prior_eval lo [Fin 0]) (Fin m0); Fin 0]
                0 g Hgt) as (m1 & H1) end.
  unfold W, pop in H1. cbn [map] in H1. rewrite H1. cbn [set bind app].
  eexists. reflexivity.
Qed.

End StubSkip.

Section MoreRuns.

Local Open Scope R_scope.

Lemma mirror_next_population :
  exists new_lw,
    sample_next_population world_mirror 1 (mkArray2 1 [[Fin (-1)]; [Fin 1]])
      [Fin 0; Fin 0] obs_one (Fin 0) 0%nat
    = Ok (mkArray2 1 [[Fin (-1)]; [Fin (-1)]], new_lw, 2%nat, 0%nat).
Proof.
  destruct (stub_next_population gens_mirror (-1) 0 (-1) 1) with (e := 0) (l := 0)
    as (m & H); [lra | lra | lra |].
  eexists. apply H.
Qed.

Lemma mirror_next_population_skip :
  exists new_lw,
    sample_next_population world_mirror 1 (mkArray2 1 [[Fin (-1)]; [Fin 1]])
      [Fin 0; Fin 0] obs_one PInf 0%nat
    = Ok (mkArray2 1 [[Fin 0]; [Fin 0]], new_lw, 0%nat, 0%nat).
Proof.
  apply (stub_next_population_skip gens_mirror (-1) 0 (-1) 1 0); [lra|reflexivity].
Qed.

Lemma failing_initial :
  sample_initial_population world_failing obs_one 2 2 0%nat
  = Ok (mkArray2 1 [[Fin 1]; [Fin 3]], 2%nat, PInf, 2%nat).
Proof. reflexivity. Qed.

Lemma mirror_initial_one :
  sample_initial_population world_mirror obs_one 1 1 0%nat
  = Ok (mkArray2 1 [[Fin (-1)]], 1%nat, Fin 0, 1%nat).
Proof.
  unfold sample_initial_population, world_mirror. cbn [initial_round].
  rewrite !stub_draw. cbn [gens_mirror Nat.ltb Nat.leb np_max fold_left bind].
  replace (-1 * -1 - 1) with 0 by ring. rewrite Rabs_R0. reflexivity.
Qed.

Lemma mirror_cholesky_one :
  cholesky world_mirror (population_cov (mkArray2 1 [[Fin (-1)]]))
  = Raise LinAlgError.
Proof.
  unfold population_cov, np_mean0, column, shape0.
  cbn [rows shape1 seq map length nth zip_with xmul xsum fold_right xadd INR].
  unfold xdiv. rewrite !Reqb_false by lra.
  cbn [nth xmul xsub xopp xadd xsum fold_right].
  unfold world_mirror. cbn [cholesky stub stub_cholesky].
  rewrite Rltb_false; [reflexivity | lra].
Qed.

End MoreRuns.

Lemma resample_population_rows_witness :
  let ps := mkArray2 1 [[Fin (-1)%R]; [Fin 1]] in
  let ps' := mkArray2 1 [[Fin (-1)%R]; [Fin (-1)%R]] in
  shape0 ps' = shape0 ps /\ shape1 ps' = shape1 ps /\
  Forall (fun p => In p (rows ps)) (rows ps').
Proof.
  exact (resample_population_rows world_mirror
           (mkArray2 1 [[Fin (-1)%R]; [Fin 1]]) [Fin 0; Fin 0] 0 _ _ eq_refl).
Defined.

Lemma sample_next_population_shape_witness :
  exists new_ps new_lw,
    sample_next_population world_mirror 1 (mkArray2 1 [[Fin (-1)%R]; [Fin 1]])
      [Fin 0; Fin 0] obs_one (Fin 0) 0
    = Ok (new_ps, new_lw, 2, 0) /\
    shape0 new_ps = 2 /\ shape1 new_ps = 1 /\
    Forall (fun p => length p = 1) (rows new_ps) /\ length new_lw = 2.
Proof.
  destruct mirror_next_population as (new_lw & H).
  eexists _, _. split; [exact H|].
  exact (sample_next_population_shape world_mirror _ _ _ _ _ _ _ _ _ _ H).
Defined.

Lemma sample_next_population_count_witness :
  exists new_ps new_lw n_sims,
    sample_next_population world_mirror 1 (mkArray2 1 [[Fin (-1)%R]; [Fin 1]])
      [Fin 0; Fin 0] obs_one (Fin 0) 0
    = Ok (new_ps, new_lw, n_sims, 0) /\
    xgtb PInf (Fin 0) = true /\ 2 <= n_sims.
Proof.
  destruct mirror_next_population as (new_lw & H).
  eexists _, _, _. split; [exact H|]. split; [reflexivity|].
  exact (sample_next_population_count world_mirror _ _ _ _ _ _ _ _ _ _ H eq_refl).
Defined.

Lemma sample_next_population_no_simulation_witness :
  exists new_ps new_lw n_sims g',
    sample_next_population world_mirror 1 (mkArray2 1 [[Fin (-1)%R]; [Fin 1]])
      [Fin 0; Fin 0] obs_one PInf 0
    = Ok (new_ps, new_lw, n_sims, g') /\
    n_sims = 0 /\ g' = 0 /\
    new_ps = mkArray2 1 (repeat (np_empty world_mirror 1) 2).
Proof.
  destruct mirror_next_population_skip as (new_lw & H).
  eexists _, _, _, _. split; [exact H|].
  exact (sample_next_population_no_simulation world_mirror _ _ _ _ _ _ _ _ _ _
           H (or_introl eq_refl)).
Defined.

Lemma sample_next_population_lengths_witness :
  exists r,
    sample_next_population world_mirror 1 (mkArray2 1 [[Fin (-1)%R]; [Fin 1]])
      [Fin 0; Fin 0] obs_one (Fin 0) 0 = Ok r /\
    length [Fin 0; Fin 0] = shape0 (mkArray2 1 [[Fin (-1)%R]; [Fin 1]]).
Proof.
  destruct mirror_next_population as (new_lw & H).
  eexists. split; [exact H|].
  apply (sample_next_population_lengths world_mirror _ _ _ _ _ _ _ H).
  unfold shape0. cbn [rows length]. lia.
Defined.

Lemma SMC_run_history_lengths_witness :
  exists h g',
    SMC_run world_mirror obs_one (Fin (1 / 2)) 2 3 (Fin (1 / 2)) 2 2 0 = Ok (h, g') /\
    1 <= length (all_ps h) /\
    length (all_log_weights h) = length (all_ps h) /\
    length (all_eps h) = length (all_ps h) /\
    length (all_log_ess h) = length (all_ps h) /\
    length (all_n_sims h) = length (all_ps h).
Proof.
  destruct mirror_run as (w & ess & H).
  eexists _, _. split; [exact H|].
  exact (SMC_run_history_lengths world_mirror _ _ _ _ _ _ _ _ _ _ H).
Defined.

Lemma SMC_run_n_sims_witness :
  exists h g',
    SMC_run world_mirror obs_one (Fin (1 / 2)) 2 3 (Fin (1 / 2)) 2 2 0 = Ok (h, g') /\
    hd 0 (all_n_sims h) = 2 /\ non_decreasing (all_n_sims h) /\
    3 <= last (all_n_sims h) 0.
Proof.
  destruct mirror_run as (w & ess & H).
  eexists _, _. split; [exact H|].
  exact (SMC_run_n_sims world_mirror _ _ _ _ _ _ _ _ _ _ H).
Defined.

Lemma SMC_run_shapes_witness :
  exists h g',
    SMC_run world_mirror obs_one (Fin (1 / 2)) 2 3 (Fin (1 / 2)) 2 2 0 = Ok (h, g') /\
    exists n d,
      Forall (fun ps => shape0 ps = n /\ shape1 ps = d) (all_ps h) /\
      Forall (fun lw => length lw = 2) (all_log_weights h).
Proof.
  destruct mirror_run as (w & ess & H).
  eexists _, _. split; [exact H|].
  exact (SMC_run_shapes world_mirror _ _ _ _ _ _ _ _ _ _ H).
Defined.

Lemma SMC_run_eps_geometric_witness :
  exists h g',
    SMC_run world_mirror obs_one (Fin (1 / 2)) 2 3 (Fin (1 / 2)) 2 2 0 = Ok (h, g') /\
    all_eps h = map (decayed (Fin 0) (Fin (1 / 2))) (seq 0 (length (all_eps h))).
Proof.
  destruct mirror_run as (w & ess & H).
  eexists _, _. split; [exact H|].
  exact (SMC_run_eps_geometric world_mirror _ _ _ _ _ _ _ _ _ _ _ _ _ _
           mirror_initial H).
Defined.

Lemma SMC_run_stalls_witness :
  sample_initial_population world_failing obs_one 2 2 0
  = Ok (mkArray2 1 [[Fin 1]; [Fin 3]], 2, PInf, 2) /\
  (0 < 1 / 2)%R /\ 2 < 3 /\
  forall fuel r,
    SMC_run world_failing obs_one (Fin (1 / 2)) 2 3 (Fin (1 / 2)) fuel 2 0 <> Ok r.
Proof.
  split; [exact failing_initial|]. split; [lra|]. split; [lia|].
  intros fuel r.
  apply (SMC_run_stalls world_failing obs_one (Fin (1 / 2)) 2 3 (Fin (1 / 2))
           (1 / 2) fuel 2 0 _ _ _ r failing_initial eq_refl);
    [lra | lia].
Defined.

Lemma SMC_run_single_entry_witness :
  exists h g',
    SMC_run world_mirror obs_one (Fin (1 / 2)) 2 3 (Fin (1 / 2)) 2 2 0 = Ok (h, g') /\
    (length (all_ps h) = 1 <-> 3 <= 2).
Proof.
  destruct mirror_run as (w & ess & H).
  eexists _, _. split; [exact H|].
  exact (SMC_run_single_entry world_mirror _ _ _ _ _ _ _ _ _ _ H).
Defined.

Lemma SMC_run_cholesky_fails_witness :
  sample_initial_population world_mirror obs_one 1 1 0
  = Ok (mkArray2 1 [[Fin (-1)%R]], 1, Fin 0, 1) /\
  cholesky world_mirror (population_cov (mkArray2 1 [[Fin (-1)%R]]))
  = Raise LinAlgError /\
  SMC_run world_mirror obs_one (Fin (1 / 2)) 1 2 (Fin (1 / 2)) 1 1 0
  = Raise NameError.
Proof.
  split; [exact mirror_initial_one|]. split; [exact mirror_cholesky_one|].
  apply (SMC_run_cholesky_fails world_mirror obs_one (Fin (1 / 2)) 1 2
           (Fin (1 / 2)) 0 1 0 _ _ _ _ _ mirror_initial_one mirror_cholesky_one).
  lia.
Defined.

(** ** More on the initial round of [SMC] *)

Lemma initial_round_draws (W : World) (obs_data : option vec) (n : nat) :
  forall g,
    fst (fst (initial_round W n obs_data g)) = map fst (draws W n obs_data g) /\
    snd (fst (initial_round W n obs_data g)) = map snd (draws W n obs_data g).
Proof.
  induction n as [|n IH]; intros g; cbn [initial_round draws];
    [split; reflexivity|].
  destruct (draw W obs_data g) as [[[p data] d] g1].
  specialize (IH g1).
  destruct (initial_round W n obs_data g1) as [[ps ds] g2].
  cbn [fst snd map] in *. destruct IH as [-> ->]. split; reflexivity.
Qed.

(** X25: for [1 <= n_initial_round <= n_particles],
    [sample_initial_population] returns all the prior draws of the initial
    round in the order they were drawn, [n_initial_round] particles whatever
    [n_particles] is, reports [n_initial_round] simulations, and [eps_init] is
    the largest of their distances, NaN as soon as one distance is NaN. *)
Theorem sample_initial_population_keeps_all (W : World)
  (obs_data : option vec) (n_particles n_initial_round : nat) (g : rng W) :
  1 <= n_initial_round ->
  n_initial_round <= n_particles ->
  exists eps_init g',
    sample_initial_population W obs_data n_particles n_initial_round g
    = Ok (np_array (map fst (draws W n_initial_round obs_data g)),
          n_initial_round, eps_init, g') /\
    shape0 (np_array (map fst (draws W n_initial_round obs_data g)))
    = n_initial_round /\
    is_maximum eps_init (map snd (draws W n_initial_round obs_data g)).
Proof.
  intros Hpos Hle.
  pose proof (initial_round_draws W obs_data n_initial_round g) as [Hps Hds].
  destruct (initial_round W n_initial_round obs_data g) as [[ps ds] g1] eqn:Hr.
  cbn [fst snd] in Hps, Hds.
  destruct (initial_population_all W obs_data n_particles n_initial_round
              g g1 ps ds Hr Hle Hpos) as (eps_init & Hmax & Hinit).
  exists eps_init, g1. rewrite <- Hps, <- Hds.
  split; [exact Hinit|]. split; [|exact Hmax].
  pose proof (initial_round_length W obs_data n_initial_round g) as [Hlen _].
  rewrite Hr in Hlen. exact Hlen.
Qed.

Lemma sample_initial_population_keeps_all_witness :
  exists eps_init g',
    sample_initial_population world_mirror obs_one 2 2 0
    = Ok (np_array (map fst (draws world_mirror 2 obs_one 0)),
          2, eps_init, g') /\
    shape0 (np_array (map fst (draws world_mirror 2 obs_one 0))) = 2 /\
    is_maximum eps_init (map snd (draws world_mirror 2 obs_one 0)).
Proof.
  apply (sample_initial_population_keeps_all world_mirror obs_one 2 2 0); lia.
Defined.

(** X26: for [2 <= n_initial_round < n_particles] and a budget above
    [n_initial_round], [SMC.run] never returns a history: the initial
    population has [n_initial_round] particles and [n_particles] log-weights,
    and the first call of [sample_next_population] cannot return. *)
Theorem SMC_run_small_initial_round (W : World) (obs_data : option vec)
  (eps_decay : xfloat) (n_particles n_sims_budget : nat) (ess_min : xfloat)
  (fuel n_initial_round : nat) (g : rng W) (r : History * rng W) :
  2 <= n_initial_round ->
  n_initial_round < n_particles ->
  n_initial_round < n_sims_budget ->
  SMC_run W obs_data eps_decay n_particles n_sims_budget ess_min fuel
          n_initial_round g <> Ok r.
Proof.
  intros H2 Hlt Hbudget.
  pose proof (initial_round_length W obs_data n_initial_round g) as [Hlen _].
  destruct (initial_round W n_initial_round obs_data g) as [[ps ds] g1] eqn:Hr.
  cbn [fst] in Hlen.
  destruct (initial_population_all W obs_data n_particles n_initial_round
              g g1 ps ds Hr ltac:(lia) ltac:(lia)) as (eps_init & _ & Hinit).
  unfold SMC_run. rewrite Hinit. cbn [bind].
  destruct fuel as [|fuel]; cbn [run_loop];
    apply Nat.ltb_lt in Hbudget; rewrite Hbudget; [discriminate|].
  destruct (sample_next_population W fuel (np_array ps) _ obs_data _ g1)
    as [res| |] eqn:Hnext; try discriminate.
  exfalso. revert Hnext. apply sample_next_population_mismatch.
  - unfold shape0. cbn [np_array rows]. lia.
  - rewrite np_full_length. unfold shape0. cbn [np_array rows]. lia.
Qed.

Lemma SMC_run_small_initial_round_witness :
  2 <= 2 /\ 2 < 3 /\ 2 < 4 /\
  forall fuel r,
    SMC_run world_mirror obs_one (Fin (1 / 2)) 3 4 (Fin (1 / 2)) fuel 2 0 <> Ok r.
Proof.
  repeat split; try lia. intros fuel r.
  apply (SMC_run_small_initial_round world_mirror obs_one (Fin (1 / 2)) 3 4
           (Fin (1 / 2)) fuel 2 0 r); lia.
Defined.

(** ** Runs of [MCMC.run] in the deterministic world *)

Section StubMcmc.

Local Open Scope R_scope.

Variables (gens : nat -> R) (lo z : R).

Let W : World := stub gens lo z never_fails.

Lemma stub_mcmc_propose (s c : R) (self : MCMC) (g : nat) :
  cur_ps self = [Fin c] ->
  mcmc_propose W obs_one (Fin s) 1 self g
  = ([Fin (c + s * z)], Some [Fin ((c + s * z) * (c + s * z))],
     Fin (Rabs ((c + s * z) * (c + s * z) - 1)), g).
Proof.
  intros Hc. unfold mcmc_propose, W. rewrite Hc.
  cbn [rng_randn rng_normal stub map xmul zip_with xadd sim_model
       stub_sim_model never_fails].
  unfold obs_one. rewrite calc_dist_1d. reflexivity.
Qed.

(** A proposal inside the support of the prior is accepted at every
    tolerance [+inf]: the uniform draw is [0]. *)
Lemma stub_mcmc_accept (s c c' : R) (st : mcmc_state) (g : nat) :
  mc_self st = mkMCMC [Fin c] (Fin 0) ->
  c' = c + s * z ->
  lo <= c' ->
  exists d,
    mcmc_step W obs_one PInf (Fin s) 1 st g
    = Ok (mkMcmcState (mkMCMC [Fin c'] (Fin 0)) (mc_ps st ++ [[Fin c']])
                      (S (mc_n_accepted st)) (Some d), g).
Proof.
  intros Hself -> Hlo. eexists. unfold mcmc_step, mcmc_move.
  rewrite (stub_mcmc_propose s c) by (rewrite Hself; reflexivity).
  cbn [xltb]. unfold W. cbn [prior_eval stub stub_prior_eval rng_rand].
  rewrite Rltb_false by lra. rewrite Hself.
  cbn [cur_log_prior xsub xopp xadd xexp xltb].
  rewrite Rltb_true by apply exp_pos.
  cbn [mc_cur_dist cur_ps]. reflexivity.
Qed.

(** A proposal outside the support of the prior is rejected. *)
Lemma stub_mcmc_reject (s c : R) (d0 : xfloat) (st : mcmc_state) (g : nat) :
  mc_self st = mkMCMC [Fin c] (Fin 0) ->
  c + s * z < lo ->
  mc_cur_dist st = Some d0 ->
  mcmc_step W obs_one PInf (Fin s) 1 st g
  = Ok (mkMcmcState (mkMCMC [Fin c] (Fin 0)) (mc_ps st ++ [[Fin c]])
                    (mc_n_accepted st) (Some d0), g).
Proof.
  intros Hself Hlo Hd. unfold mcmc_step, mcmc_move.
  rewrite (stub_mcmc_propose s c) by (rewrite Hself; reflexivity).
  cbn [xltb]. unfold W. cbn [prior_eval stub stub_prior_eval rng_rand].
  rewrite Rltb_true by lra. rewrite Hself.
  cbn [cur_log_prior xsub xopp xadd xexp xltb].
  rewrite Rltb_false by lra.
  cbn [mc_cur_dist cur_ps]. rewrite Hd. reflexivity.
Qed.

(** When the proposals repeat the state, every one of them is accepted. *)
Lemma stub_mcmc_loop_accepts (s c : R) (n : nat) :
  s * z = 0 -> lo <= c ->
  forall st g,
    mc_self st = mkMCMC [Fin c] (Fin 0) ->
    exists st',
      mcmc_loop W n obs_one PInf (Fin s) 1 st g = Ok (st', g) /\
      mc_self st' = mkMCMC [Fin c] (Fin 0).
Proof.
  intros Hz Hlo. induction n as [|n IH]; intros st g Hself; cbn [mcmc_loop].
  - exists st. split; [reflexivity | exact Hself].
  - destruct (stub_mcmc_accept s c c st g Hself) as (d & ->); [lra | exact Hlo|].
    cbn [bind]. apply IH. reflexivity.
Qed.

Lemma stub_mcmc_returns (s c : R) (n : nat) (info : bool) (g : nat) :
  s * z = 0 -> lo <= c -> (1 <= n)%nat ->
  exists r,
    MCMC_run W (mkMCMC [Fin c] (Fin 0)) obs_one PInf (Fin s) n info g
    = Ok (r, mkMCMC [Fin c] (Fin 0), g).
Proof.
  intros Hz Hlo Hn. unfold MCMC_run. cbn [cur_ps length].
  destruct (stub_mcmc_loop_accepts s c n Hz Hlo
              (mkMcmcState (mkMCMC [Fin c] (Fin 0)) [] 0 None) g eq_refl)
    as (st' & -> & Hself).
  cbn [bind]. destruct (n =? 0)%nat eqn:Hn0; [apply Nat.eqb_eq in Hn0; lia|].
  rewrite Hself. eexists. reflexivity.
Qed.

End StubMcmc.

Section McmcRunsConcrete.

Local Open Scope R_scope.

Lemma mirror_mcmc_init :
  MCMC_init world_mirror [Fin 0] = mkMCMC [Fin 0] (Fin 0).
Proof.
  unfold MCMC_init, world_mirror. cbn [prior_eval stub stub_prior_eval].
  rewrite Rltb_false by lra. reflexivity.
Qed.

(** In [world_mirror] every proposal from [0] is [0] again and is accepted:
    the run returns. *)
Lemma mirror_mcmc_run (s : R) (n : nat) (info : bool) (g : nat) :
  (1 <= n)%nat ->
  exists r,
    MCMC_run world_mirror (MCMC_init world_mirror [Fin 0]) obs_one PInf (Fin s)
             n info g
    = Ok (r, MCMC_init world_mirror [Fin 0], g).
Proof.
  intros Hn. rewrite mirror_mcmc_init.
  apply (stub_mcmc_returns gens_mirror (-1) 0 s 0 n info g); [lra | lra | exact Hn].
Qed.

Lemma outside_mcmc_init :
  MCMC_init world_outside [Fin 3] = mkMCMC [Fin 3] (Fin 0).
Proof.
  unfold MCMC_init, world_outside. cbn [prior_eval stub stub_prior_eval].
  rewrite Rltb_false by lra. reflexivity.
Qed.

(** In [world_outside] a step of [sqrt 2] moves the state by [-2]: from [3]
    the first proposal, [1], is accepted, and the later ones, [-1], lie
    outside the support of the prior and are rejected. *)
Lemma outside_mcmc_run :
  MCMC_run world_outside (MCMC_init world_outside [Fin 3]) obs_one PInf
           (Fin (sqrt 2)) 3 false 0%nat
  = Ok (McmcPlain [[Fin 1]; [Fin 1]; [Fin 1]], mkMCMC [Fin 1] (Fin 0), 0%nat).
Proof.
  assert (Hs : sqrt 2 * - sqrt 2 = -2).
  { replace (sqrt 2 * - sqrt 2) with (- (sqrt 2 * sqrt 2)) by ring.
    rewrite sqrt_sqrt by lra. reflexivity. }
  rewrite outside_mcmc_init. unfold MCMC_run, world_outside.
  cbn [cur_ps length mcmc_loop].
  destruct (stub_mcmc_accept gens_odd 0 (- sqrt 2) (sqrt 2) 3 1
              (mkMcmcState (mkMCMC [Fin 3] (Fin 0)) [] 0 None) 0%nat eq_refl)
    as (d & ->); [lra | lra |].
  cbn [bind mc_ps mc_n_accepted app].
  rewrite (stub_mcmc_reject gens_odd 0 (- sqrt 2) (sqrt 2) 1 d);
    [|reflexivity | lra | reflexivity].
  cbn [bind mc_ps mc_n_accepted app].
  rewrite (stub_mcmc_reject gens_odd 0 (- sqrt 2) (sqrt 2) 1 d);
    [|reflexivity | lra | reflexivity].
  reflexivity.
Qed.

End McmcRunsConcrete.



Lemma MCMC_run_acc_rate_witness :
  exists ps acc_rate self' g',
    MCMC_run world_mirror (MCMC_init world_mirror [Fin 0]) obs_one PInf (Fin 0)
             3 true 0 = Ok (McmcInfo ps acc_rate, self', g') /\
    exists r, acc_rate = Fin r /\ (0 <= r <= 1)%R.
Proof.
  destruct (mirror_mcmc_run 0 3 true 0 ltac:(lia)) as (r & H).
  destruct (MCMC_run_inv _ _ _ _ _ _ _ _ _ _ _ H) as (_ & st & _ & _ & _ & Hr).
  rewrite (Hr eq_refl) in H.
  eexists _, _, _, _. split; [exact H|].
  exact (MCMC_run_acc_rate world_mirror _ obs_one PInf (Fin 0) 3 0 _ _ _ _ H).
Defined.

Lemma MCMC_run_state_witness :
  exists r self' g',
    MCMC_run world_mirror (MCMC_init world_mirror [Fin 0]) obs_one PInf (Fin 0)
             3 false 0 = Ok (r, self', g') /\
    cur_ps self' = last (mcmc_chain r) [Fin 0] /\
    cur_log_prior self' = prior_eval world_mirror (cur_ps self').
Proof.
  destruct (mirror_mcmc_run 0 3 false 0 ltac:(lia)) as (r & H).
  eexists _, _, _. split; [exact H|].
  exact (MCMC_run_state world_mirror _ obs_one PInf (Fin 0) 3 false 0 _ _ _ H
           eq_refl).
Defined.

Lemma MCMC_run_dimension_witness :
  exists r self' g',
    MCMC_run world_mirror (MCMC_init world_mirror [Fin 0]) obs_one PInf (Fin 0)
             3 false 0 = Ok (r, self', g') /\
    length (cur_ps self') = 1 /\
    Forall (fun p => length p = 1) (mcmc_chain r).
Proof.
  destruct (mirror_mcmc_run 0 3 false 0 ltac:(lia)) as (r & H).
  eexists _, _, _. split; [exact H|].
  exact (MCMC_run_dimension world_mirror _ obs_one PInf (Fin 0) 3 false 0 _ _ _ H).
Defined.

Lemma MCMC_run_support_witness :
  exists r self' g',
    MCMC_run world_outside (MCMC_init world_outside [Fin 3]) obs_one PInf
             (Fin (sqrt 2)) 3 false 0 = Ok (r, self', g') /\
    Forall (fun p => p = [Fin 3] \/ prior_eval world_outside p <> NInf)
           (mcmc_chain r).
Proof.
  eexists _, _, _. split; [exact outside_mcmc_run|].
  refine (MCMC_run_support world_outside (MCMC_init world_outside [Fin 3])
            obs_one PInf (Fin (sqrt 2)) 3 false 0 _ _ _ _ outside_mcmc_run).
  intros g0. cbn. lra.
Defined.

Lemma MCMC_run_not_positive_witness :
  MCMC_run world_mirror (MCMC_init world_mirror [Fin 0]) obs_one (Fin 0)
           (Fin 1) 3 true 0
  = Raise TypeError.
Proof.
  apply (MCMC_run_not_positive world_mirror (MCMC_init world_mirror [Fin 0])
           obs_one (Fin 0) (Fin 1) 3 true 0).
  right; right. exists 0%R. split; [reflexivity | lra].
Defined.

Lemma MCMC_run_join_witness :
  exists r1 self1 g1 r2 self2 g2 r,
    MCMC_run world_mirror (MCMC_init world_mirror [Fin 0]) obs_one PInf (Fin 1)
             2 false 0 = Ok (r1, self1, g1) /\
    MCMC_run world_mirror self1 obs_one PInf (Fin 1) 1 false g1
    = Ok (r2, self2, g2) /\
    MCMC_run world_mirror (MCMC_init world_mirror [Fin 0]) obs_one PInf (Fin 1)
             (2 + 1) false 0 = Ok (r, self2, g2) /\
    mcmc_chain r = mcmc_chain r1 ++ mcmc_chain r2.
Proof.
  destruct (mirror_mcmc_run 1 2 false 0 ltac:(lia)) as (r1 & H1).
  destruct (mirror_mcmc_run 1 1 false 0 ltac:(lia)) as (r2 & H2).
  destruct (MCMC_run_join world_mirror _ obs_one PInf (Fin 1) 2 1 false 0 0 0
              r1 r2 _ _ H1 H2) as (r & Hr & Hc).
  exists r1, (MCMC_init world_mirror [Fin 0]), 0, r2,
         (MCMC_init world_mirror [Fin 0]), 0, r.
  auto.
Defined.

(** ** The tolerances of [SMC.run] *)








(** ** Runs that break what the samplers are meant to keep *)

(** C2, when every new particle lies outside the support of the prior: the
    unnormalized log-weights are all [-inf], the normalization subtracts
    [-inf] from [-inf], and the stored log-weights are NaN. *)
Theorem SMC_run_weights_NaN :
  exists h g' lw0,
    SMC_run world_outside obs_one (Fin (1 / 2)) 2 3 (Fin (1 / 2)) 2 2 0 = Ok (h, g') /\
    all_log_weights h = [lw0; [NaN; NaN]] /\
    logsumexp [NaN; NaN] = NaN.
Proof.
  eexists _, _, _. split; [exact outside_run|]. split; reflexivity.
Qed.

